(** * Review-queue Slack bot: a shallow embedding of [slack_handler.go]

    The development follows the Go source function by function.  The
    handler's registry ([Queues], [NextID]) is explicit state, and every
    observable step of a handler (taking or releasing [sh.mu], a call of
    [sh.API.PostMessage]) is recorded in a trace, so that both the
    functional behaviour of a command and its locking discipline can be
    stated about the same definition. *)

From Stdlib Require Import ZArith Ascii String List Lia.
From stdpp Require Import base tactics option list gmap strings pretty.

Local Open Scope Z_scope.

(** ** Go's [int] on a 64-bit target *)

Module GoInt.

Definition int_size : Z := 64.
Definition max_int : Z := 2 ^ (int_size - 1) - 1.
Definition min_int : Z := - 2 ^ (int_size - 1).

(** Two's complement wrap-around of an arithmetic result. *)
Definition wrap (z : Z) : Z :=
  (z - min_int) mod 2 ^ int_size + min_int.

Definition in_range (z : Z) : bool :=
  (min_int <=? z) && (z <=? max_int).

(** [n++] *)
Definition incr (n : Z) : Z := wrap (n + 1).

End GoInt.

(** ** The pieces of Go's standard library the handlers call *)

Module GoStrings.

Definition byte_of (c : ascii) : Z := Z.of_N (N_of_ascii c).

Definition LF : string := String (ascii_of_nat 10) EmptyString.
Definition DQUOTE : string := String (ascii_of_nat 34) EmptyString.

(** [unicode.IsSpace] on the UTF-8 bytes of a string: the width in bytes
    of the white-space rune the string starts with, [0] when it starts
    with none.  The white-space runes are U+0009..U+000D, U+0020,
    U+0085, U+00A0, U+1680, U+2000..U+200A, U+2028, U+2029, U+202F,
    U+205F and U+3000.  A lead byte is never a continuation byte, so
    matching the encodings at a byte offset agrees with decoding rune by
    rune. *)
Definition space_width (s : string) : nat :=
  match s with
  | EmptyString => 0%nat
  | String c1 r1 =>
    let b1 := byte_of c1 in
    if ((9 <=? b1) && (b1 <=? 13)) || (b1 =? 32) then 1%nat
    else
      match r1 with
      | EmptyString => 0%nat
      | String c2 r2 =>
        let b2 := byte_of c2 in
        if (b1 =? 194) && ((b2 =? 133) || (b2 =? 160)) then 2%nat
        else
          match r2 with
          | EmptyString => 0%nat
          | String c3 _ =>
            let b3 := byte_of c3 in
            if ((b1 =? 225) && (b2 =? 154) && (b3 =? 128))
               || ((b1 =? 226) && (b2 =? 128)
                   && (((128 <=? b3) && (b3 <=? 138))
                       || (b3 =? 168) || (b3 =? 169) || (b3 =? 175)))
               || ((b1 =? 226) && (b2 =? 129) && (b3 =? 159))
               || ((b1 =? 227) && (b2 =? 128) && (b3 =? 128))
            then 3%nat else 0%nat
          end
      end
  end.

Definition flush (cur : string) : list string :=
  match cur with
  | EmptyString => []
  | _ => [cur]
  end.

(** [skip] counts the bytes of a white-space rune still to be dropped,
    [cur] is the field being collected. *)
Fixpoint Fields_go (skip : nat) (cur : string) (s : string) : list string :=
  match s with
  | EmptyString => flush cur
  | String c s' =>
    match skip with
    | S k => Fields_go k cur s'
    | O =>
      match space_width s with
      | O => Fields_go 0 (cur +:+ String c EmptyString) s'
      | S k => flush cur ++ Fields_go k EmptyString s'
      end
    end
  end.

(** [strings.Fields]: the maximal runs of non-space runes. *)
Definition Fields (s : string) : list string := Fields_go 0 EmptyString s.

(** [strings.HasPrefix] *)
Definition HasPrefix (s pre : string) : bool := String.prefix pre s.

Fixpoint TrimLeft_go (skip : nat) (s : string) : string :=
  match s with
  | EmptyString => EmptyString
  | String c s' =>
    match skip with
    | S k => TrimLeft_go k s'
    | O =>
      match space_width s with
      | O => s
      | S k => TrimLeft_go k s'
      end
    end
  end.

(** The string with its last white-space rune removed, when it ends in
    one. *)
Fixpoint drop_last_space (s : string) : option string :=
  match s with
  | EmptyString => None
  | String c s' =>
    match drop_last_space s' with
    | Some r => Some (String c r)
    | None =>
      if (space_width s =? String.length s)%nat then Some EmptyString
      else None
    end
  end.

Fixpoint TrimRight_go (fuel : nat) (s : string) : string :=
  match fuel with
  | O => s
  | S n =>
    match drop_last_space s with
    | Some r => TrimRight_go n r
    | None => s
    end
  end.

(** [strings.TrimSpace] *)
Definition TrimSpace (s : string) : string :=
  let l := TrimLeft_go 0 s in
  TrimRight_go (String.length l) l.

(** [strings.Join] *)
Fixpoint Join (elems : list string) (sep : string) : string :=
  match elems with
  | [] => EmptyString
  | [e] => e
  | e :: rest => e +:+ sep +:+ Join rest sep
  end.

(** The predicate of [strings.Contains], used to state what a reply
    shows. *)
Fixpoint Contains (s substr : string) : bool :=
  String.prefix substr s
  || match s with
     | EmptyString => false
     | String _ s' => Contains s' substr
     end.

End GoStrings.

Module GoStrconv.

Import GoStrings.

Definition digit_val (c : ascii) : option Z :=
  let b := byte_of c in
  if (48 <=? b) && (b <=? 57) then Some (b - 48) else None.

Fixpoint parse_digits (acc : Z) (s : string) : option Z :=
  match s with
  | EmptyString => Some acc
  | String c s' =>
    match digit_val c with
    | Some d => parse_digits (acc * 10 + d) s'
    | None => None
    end
  end.

(** [strconv.Atoi]: an optional sign and at least one decimal digit, the
    value within [int]; [None] for the syntax and the range error. *)
Definition Atoi (s : string) : option Z :=
  match s with
  | EmptyString => None
  | String c rest =>
    let neg := (byte_of c =? 45) in
    let body := if neg || (byte_of c =? 43) then rest else s in
    match body with
    | EmptyString => None
    | _ =>
      match parse_digits 0 body with
      | Some n =>
        let v := if neg then - n else n in
        if GoInt.in_range v then Some v else None
      | None => None
      end
    end
  end.

End GoStrconv.

Import GoStrings GoStrconv.

(** ** Data model *)

(** [type Queue struct] *)
Record Queue : Type := mkQueue {
  ID : Z;
  Title : string;
  MRLink : string;
  Tags : list string;
  Owner : string;
  InReviewState : bool
}.

(** [type SlackHandler struct].  [Queues] holds pointers in the source;
    each [*Queue] is allocated by [handleQueueAdd] and stored under one
    key only, so the map is modelled by value.  [API] and [SigningSecret]
    play no part in the queue commands; [mu] is observed through the
    trace. *)
Record SlackHandler : Type := mkSlackHandler {
  Queues : gmap Z Queue;
  NextID : Z;
  BotUserID : string
}.

(** The fields of [slackevents.MessageEvent] the handlers read. *)
Record MessageEvent : Type := mkMessageEvent {
  User : string;
  SubType : string;
  Text : string;
  Channel : string
}.

(** What a handler does besides changing the registry. *)
Inductive Event : Type :=
| MuLock
| MuUnlock
| PostMessage (channel text : string).

Global Instance Queue_eq_dec : EqDecision Queue.
Proof. solve_decision. Defined.

Global Instance Event_eq_dec : EqDecision Event.
Proof. solve_decision. Defined.

(** [NewSlackHandler], with the bot's user id as returned by [AuthTest]. *)
Definition NewSlackHandler (botUserID : string) : SlackHandler :=
  {| Queues := ∅; NextID := 1; BotUserID := botUserID |}.

Definition set_Queues (m : gmap Z Queue) (sh : SlackHandler) : SlackHandler :=
  {| Queues := m; NextID := NextID sh; BotUserID := BotUserID sh |}.

Definition set_NextID (n : Z) (sh : SlackHandler) : SlackHandler :=
  {| Queues := Queues sh; NextID := n; BotUserID := BotUserID sh |}.

Definition set_Tags (ts : list string) (q : Queue) : Queue :=
  {| ID := ID q; Title := Title q; MRLink := MRLink q; Tags := ts;
     Owner := Owner q; InReviewState := InReviewState q |}.

Definition set_InReviewState (b : bool) (q : Queue) : Queue :=
  {| ID := ID q; Title := Title q; MRLink := MRLink q; Tags := Tags q;
     Owner := Owner q; InReviewState := b |}.

(** ** Handlers as state transformers that log their steps *)

Module HandlerMonad.

Definition Handler (A : Type) : Type :=
  SlackHandler -> A * SlackHandler * list Event.

Definition ret {A} (a : A) : Handler A := fun sh => (a, sh, []).

Definition bind {A B} (m : Handler A) (k : A -> Handler B) : Handler B :=
  fun sh =>
    let '(a, sh1, t1) := m sh in
    let '(b, sh2, t2) := k a sh1 in
    (b, sh2, t1 ++ t2).

Definition get : Handler SlackHandler := fun sh => (sh, sh, []).
Definition put (sh' : SlackHandler) : Handler unit := fun _ => (tt, sh', []).
Definition emit (e : Event) : Handler unit := fun sh => (tt, sh, [e]).

(** The state and the trace a handler leaves. *)
Definition exec {A} (m : Handler A) (sh : SlackHandler) : SlackHandler :=
  (m sh).1.2.
Definition trace {A} (m : Handler A) (sh : SlackHandler) : list Event :=
  (m sh).2.

End HandlerMonad.

Import HandlerMonad.

Notation "x <- m ;; k" := (bind m (fun x => k))
  (at level 100, m at next level, right associativity, only parsing).
Notation "m ;; k" := (bind m (fun _ => k))
  (at level 100, right associativity, only parsing).

(** [sh.mu.Lock()], [sh.mu.Unlock()], [sh.API.PostMessage(channel,
    slack.MsgOptionText(text, false))] *)
Definition mu_Lock : Handler unit := emit MuLock.
Definition mu_Unlock : Handler unit := emit MuUnlock.
Definition API_PostMessage (channel text : string) : Handler unit :=
  emit (PostMessage channel text).

(** The messages of a trace, in order. *)
Definition posts (t : list Event) : list string :=
  omap (fun e => match e with PostMessage _ m => Some m | _ => None end) t.

(** ** Reading the trace against the mutex *)

(** [held] is whether [sh.mu] is held before the first event.  A trace is
    well locked when it never locks the held mutex, never unlocks the free
    one and ends with the mutex free. *)
Fixpoint well_locked (held : bool) (t : list Event) : bool :=
  match t with
  | [] => negb held
  | MuLock :: t' => negb held && well_locked true t'
  | MuUnlock :: t' => held && well_locked false t'
  | PostMessage _ _ :: t' => well_locked held t'
  end.

(** No message is posted while the mutex is held. *)
Fixpoint posts_unlocked (held : bool) (t : list Event) : bool :=
  match t with
  | [] => true
  | MuLock :: t' => posts_unlocked true t'
  | MuUnlock :: t' => posts_unlocked false t'
  | PostMessage _ _ :: t' => negb held && posts_unlocked held t'
  end.

(** The messages posted while the mutex is held. *)
Fixpoint posts_under_lock (held : bool) (t : list Event) : list string :=
  match t with
  | [] => []
  | MuLock :: t' => posts_under_lock true t'
  | MuUnlock :: t' => posts_under_lock false t'
  | PostMessage _ m :: t' =>
    (if held then [m] else []) ++ posts_under_lock held t'
  end.

(** ** The commands of [slack_handler.go] *)

(** [parseQueueID]: the id, or the text of the error. *)
Definition parseQueueID (command : string) : string + Z :=
  let parts := Fields command in
  if (List.length parts <? 3)%nat then inl "Usage: <command> <id>"
  else
    match Atoi (nth 2 parts EmptyString) with
    | None => inl "Invalid queue ID."
    | Some id => inr id
    end.

(** The loop of [handleQueueApprove] that looks for the tag to remove:
    the index of the first tag equal to [approvedTag], counted from [i],
    and [-1] when there is none. *)
Fixpoint find_tag (approvedTag : string) (i : Z) (tags : list string) : Z :=
  match tags with
  | [] => -1
  | tag :: rest =>
    if String.eqb tag approvedTag then i
    else find_tag approvedTag (i + 1) rest
  end.

(** [append(tags[:tagIndex], tags[tagIndex+1:]...)] *)
Definition remove_index (tagIndex : Z) (tags : list string) : list string :=
  take (Z.to_nat tagIndex) tags ++ drop (Z.to_nat (tagIndex + 1)) tags.

(** [fmt.Sprintf("<@%s>", user)] *)
Definition mention_of (user : string) : string := "<@" +:+ user +:+ ">".

(** The line [handleQueueList] writes for one queue. *)
Definition queue_line (queue : Queue) : string :=
  let mention :=
    if InReviewState queue then "Owner: " +:+ mention_of (Owner queue)
    else "Tags: " +:+ Join (Tags queue) ", " in
  "ID: " +:+ pretty (ID queue) +:+ " | Title: " +:+ Title queue
  +:+ " | MR: " +:+ MRLink queue +:+ " | " +:+ mention +:+ LF.

(** The [strings.Builder] after the loop over the queues. *)
Definition queueList (queues : list Queue) : string :=
  fold_left (fun b queue => b +:+ queue_line queue) queues EmptyString.

(** The confirmation of [handleQueueAdd]. *)
Definition added_msg (queue : Queue) : string :=
  "Queue added: *" +:+ Title queue +:+ "*" +:+ LF
  +:+ "MR Link: " +:+ MRLink queue +:+ LF
  +:+ "Tags: " +:+ Join (Tags queue) ", ".

Definition helpMessage : string :=
  "Here are the available queue commands:" +:+ LF
  +:+ "- `queue add <title> <link> @tag @tag...`: Adds a queue with a title, link, and optional tags (user mentions)" +:+ LF
  +:+ "  Example: `queue add " +:+ DQUOTE +:+ "New Feature" +:+ DQUOTE
  +:+ " https://example.com @user1 @user2`" +:+ LF
  +:+ "- `queue list`: Lists all queues" +:+ LF
  +:+ "- `queue remove <queueID>`: Removes a queue by ID" +:+ LF
  +:+ "- `queue approve <queueID>`: Approves a queue by ID" +:+ LF
  +:+ "- `queue review <queueID>`: Marks a queue as under review" +:+ LF
  +:+ "- `queue update <queueID>`: Updates a queue" +:+ LF
  +:+ "- `queue help`: Displays this help message".

Section Handlers.

(** Go leaves the order in which [range] visits a map unspecified: the
    handlers take it as a parameter. *)
Variable range_Queues : gmap Z Queue -> list Queue.

Definition handleQueueAdd (ev : MessageEvent) : Handler unit :=
  let parts := Fields (Text ev) in
  if (List.length parts <? 4)%nat then
    API_PostMessage (Channel ev) "Usage: queue add <title> <MR link> @tag @tag"
  else
    mu_Lock ;;
    sh <- get ;;
    let queue :=
      {| ID := NextID sh;
         Title := nth 2 parts EmptyString;
         MRLink := nth 3 parts EmptyString;
         Tags := drop 4 parts;
         Owner := User ev;
         InReviewState := false |} in
    put (set_Queues (<[NextID sh := queue]> (Queues sh)) sh) ;;
    sh <- get ;;
    put (set_NextID (GoInt.incr (NextID sh)) sh) ;;
    API_PostMessage (Channel ev) (added_msg queue) ;;
    mu_Unlock.

Definition handleQueueList (ev : MessageEvent) : Handler unit :=
  mu_Lock ;;
  sh <- get ;;
  if (size (Queues sh) =? 0)%nat then
    API_PostMessage (Channel ev) "No queues available." ;;
    mu_Unlock
  else
    API_PostMessage (Channel ev) (queueList (range_Queues (Queues sh))) ;;
    mu_Unlock.

Definition handleQueueRemove (ev : MessageEvent) : Handler unit :=
  match parseQueueID (Text ev) with
  | inl err => API_PostMessage (Channel ev) err
  | inr id =>
    mu_Lock ;;
    sh <- get ;;
    match Queues sh !! id with
    | None =>
      API_PostMessage (Channel ev) "Queue not found." ;;
      mu_Unlock
    | Some _ =>
      put (set_Queues (delete id (Queues sh)) sh) ;;
      API_PostMessage (Channel ev) "Queue removed." ;;
      mu_Unlock
    end
  end.

Definition handleQueueApprove (ev : MessageEvent) : Handler unit :=
  let parts := Fields (Text ev) in
  if (List.length parts <? 3)%nat then
    API_PostMessage (Channel ev) "Usage: queue approve <id>"
  else
    match Atoi (nth 2 parts EmptyString) with
    | None => API_PostMessage (Channel ev) "Invalid queue ID."
    | Some id =>
      mu_Lock ;;
      sh <- get ;;
      match Queues sh !! id with
      | None =>
        mu_Unlock ;;
        API_PostMessage (Channel ev) "Queue not found."
      | Some queue =>
        if (0 <? List.length (Tags queue))%nat then
          let approvedTag := mention_of (User ev) in
          let tagIndex := find_tag approvedTag 0 (Tags queue) in
          if negb (tagIndex =? -1) then
            put (set_Queues
                   (<[id := set_Tags (remove_index tagIndex (Tags queue)) queue]>
                      (Queues sh)) sh) ;;
            mu_Unlock ;;
            API_PostMessage (Channel ev) "Queue approved and tag removed." ;;
            handleQueueList ev
          else
            mu_Unlock ;;
            API_PostMessage (Channel ev) "Your tag was not found in the queue."
        else
          mu_Unlock ;;
          API_PostMessage (Channel ev) "Queue completed; no tags left." ;;
          handleQueueList ev
      end
    end.

Definition handleQueueReview (ev : MessageEvent) : Handler unit :=
  match parseQueueID (Text ev) with
  | inl err => API_PostMessage (Channel ev) err
  | inr id =>
    mu_Lock ;;
    sh <- get ;;
    match Queues sh !! id with
    | None =>
      mu_Unlock ;;
      API_PostMessage (Channel ev) "Queue not found."
    | Some queue =>
      put (set_Queues (<[id := set_InReviewState true queue]> (Queues sh)) sh) ;;
      API_PostMessage (Channel ev)
        ("Queue " +:+ pretty (ID queue) +:+ " is now in review.") ;;
      mu_Unlock ;;
      handleQueueList ev
    end
  end.

Definition handleQueueUpdate (ev : MessageEvent) : Handler unit :=
  match parseQueueID (Text ev) with
  | inl err => API_PostMessage (Channel ev) err
  | inr id =>
    mu_Lock ;;
    sh <- get ;;
    match Queues sh !! id with
    | None =>
      mu_Unlock ;;
      API_PostMessage (Channel ev) "Queue not found."
    | Some queue =>
      put (set_Queues (<[id := set_InReviewState false queue]> (Queues sh)) sh) ;;
      API_PostMessage (Channel ev)
        ("Queue " +:+ pretty (ID queue)
         +:+ " has been updated and is no longer in review.") ;;
      mu_Unlock ;;
      handleQueueList ev
    end
  end.

Definition handleQueueHelp (ev : MessageEvent) : Handler unit :=
  API_PostMessage (Channel ev) helpMessage.

(** [handleCallbackEvent] on a [*slackevents.MessageEvent]; the other
    inner events and the unrecognised commands are only logged. *)
Definition handleCallbackEvent (ev : MessageEvent) : Handler unit :=
  sh <- get ;;
  if String.eqb (User ev) (BotUserID sh) || negb (String.eqb (SubType ev) EmptyString)
  then ret tt
  else
    let command := TrimSpace (Text ev) in
    if HasPrefix command "queue add" then handleQueueAdd ev
    else if HasPrefix command "queue list" then handleQueueList ev
    else if HasPrefix command "queue remove" then handleQueueRemove ev
    else if HasPrefix command "queue approve" then handleQueueApprove ev
    else if HasPrefix command "queue review" then handleQueueReview ev
    else if HasPrefix command "queue update" then handleQueueUpdate ev
    else if HasPrefix command "queue help" then handleQueueHelp ev
    else ret tt.

(** The handler after a sequence of messages, and everything it did. *)
Fixpoint handle_all (evs : list MessageEvent) : Handler unit :=
  match evs with
  | [] => ret tt
  | ev :: evs' => handleCallbackEvent ev ;; handle_all evs'
  end.

End Handlers.

(** The order in which stdpp lists a map, one of the orders [range] may
    take. *)
Definition range_listed (m : gmap Z Queue) : list Queue := (map_to_list m).*2.

(** What [handleQueueList] posts from a given registry. *)
Definition list_msg (range_Queues : gmap Z Queue -> list Queue)
    (sh : SlackHandler) : string :=
  if (size (Queues sh) =? 0)%nat then "No queues available."
  else queueList (range_Queues (Queues sh)).

(** A run of [queue approve] messages. *)
Fixpoint approve_all (range_Queues : gmap Z Queue -> list Queue)
    (evs : list MessageEvent) : Handler unit :=
  match evs with
  | [] => ret tt
  | ev :: evs' => handleQueueApprove range_Queues ev ;; approve_all range_Queues evs'
  end.

(** The registry invariant: a queue is stored under its own id, and the ids
    in use are below the counter. *)
Definition ids_below_counter (sh : SlackHandler) : Prop :=
  forall id queue,
    Queues sh !! id = Some queue -> ID queue = id /\ id < NextID sh.

(** ** Plain tokens *)

(** A byte that is ASCII and no white space, a string of such bytes, and a
    token: a string of them that is not empty. *)
Definition plain_byte (c : ascii) : bool :=
  let b := byte_of c in
  (b <? 128) && negb (((9 <=? b) && (b <=? 13)) || (b =? 32)).

Fixpoint plain (s : string) : bool :=
  match s with
  | EmptyString => true
  | String c s' => plain_byte c && plain s'
  end.

Definition token (s : string) : bool :=
  negb (String.eqb s EmptyString) && plain s.

(** A string of decimal digits that [parse_digits] reads as [v], and that
    has [k] digits. *)
Definition reads (s : string) (k v : Z) : Prop :=
  0 <= k /\ forall acc, parse_digits acc s = Some (acc * 10 ^ k + v).

Definition starts_digit (s : string) : bool :=
  match s with
  | EmptyString => false
  | String c _ => (48 <=? byte_of c) && (byte_of c <=? 57)
  end.

(** How a queue may differ from what it was: the same id, title, link and
    owner, and tags picked from the tags it had, in their order. *)
Definition aged (queue queue' : Queue) : Prop :=
  ID queue' = ID queue
  /\ Title queue' = Title queue
  /\ MRLink queue' = MRLink queue
  /\ Owner queue' = Owner queue
  /\ sublist (Tags queue') (Tags queue).

(** ** A small registry on which the commands are run *)

Module Sample.

Definition fix_bug : Queue :=
  {| ID := 1; Title := "Fix"; MRLink := "http://x";
     Tags := ["<@U2>"; "<@U1>"; "<@U3>"; "<@U1>"];
     Owner := "U9"; InReviewState := false |}.

Definition done_queue : Queue :=
  {| ID := 2; Title := "Docs"; MRLink := "http://y";
     Tags := []; Owner := "U1"; InReviewState := true |}.

Definition bare_tags : Queue :=
  {| ID := 3; Title := "Refactor"; MRLink := "http://z";
     Tags := ["@alice"; "@bob"]; Owner := "U2"; InReviewState := false |}.

Definition last_tag : Queue :=
  {| ID := 4; Title := "Bump"; MRLink := "http://w";
     Tags := ["<@U3>"]; Owner := "U2"; InReviewState := true |}.

Definition sh : SlackHandler :=
  {| Queues := <[1 := fix_bug]> (<[2 := done_queue]>
                 (<[3 := bare_tags]> (<[4 := last_tag]> ∅)));
     NextID := 5;
     BotUserID := "BOT" |}.

Definition msg (user text : string) : MessageEvent :=
  {| User := user; SubType := EmptyString; Text := text; Channel := "C1" |}.

End Sample.

(** * Properties *)

(** ** The tag search and the slice surgery *)

Section TagSearch.

Implicit Types (tag : string) (tags pre post : list string) (i : Z).

Lemma find_tag_first tag pre post i :
  tag ∉ pre ->
  find_tag tag i (pre ++ tag :: post) = i + Z.of_nat (List.length pre).
Proof.
  revert i. induction pre as [|t pre IH]; intros i Hpre; simpl.
  - rewrite String.eqb_refl. lia.
  - apply not_elem_of_cons in Hpre as [Hne Hpre].
    destruct (String.eqb_spec t tag) as [->|_]; [done|].
    rewrite IH by done. lia.
Qed.

Lemma find_tag_absent tag tags i :
  tag ∉ tags -> find_tag tag i tags = -1.
Proof.
  revert i. induction tags as [|t tags IH]; intros i Hno; simpl; [done|].
  apply not_elem_of_cons in Hno as [Hne Hno].
  destruct (String.eqb_spec t tag) as [->|_]; [done|]. by apply IH.
Qed.

Lemma find_tag_present tag tags i :
  0 <= i -> tag ∈ tags -> i <= find_tag tag i tags.
Proof.
  revert i. induction tags as [|t tags IH]; intros i Hi Hin; simpl.
  - by apply elem_of_nil in Hin.
  - destruct (String.eqb_spec t tag) as [->|Hne]; [lia|].
    apply elem_of_cons in Hin as [->|Hin]; [done|].
    specialize (IH (i + 1) ltac:(lia) Hin). lia.
Qed.

Lemma find_tag_found_iff tag tags :
  find_tag tag 0 tags ≠ -1 <-> tag ∈ tags.
Proof.
  split.
  - intros Hf. destruct (decide (tag ∈ tags)) as [|Hno]; [done|].
    by rewrite find_tag_absent in Hf.
  - intros Hin. pose proof (find_tag_present tag tags 0 ltac:(lia) Hin). lia.
Qed.

Lemma remove_index_first tag pre post :
  remove_index (Z.of_nat (List.length pre)) (pre ++ tag :: post) = pre ++ post.
Proof.
  unfold remove_index.
  replace (Z.to_nat (Z.of_nat (List.length pre) + 1)) with (S (List.length pre)) by lia.
  rewrite Nat2Z.id, take_app_length.
  rewrite cons_middle, app_assoc, drop_app_length'; [done|].
  rewrite length_app. simpl. lia.
Qed.

(** Splitting a list at the first occurrence of an element. *)
Lemma first_occurrence tag tags :
  tag ∈ tags -> exists pre post, tags = pre ++ tag :: post /\ tag ∉ pre.
Proof.
  induction tags as [|t tags IH]; intros Hin.
  - by apply elem_of_nil in Hin.
  - destruct (decide (t = tag)) as [->|Hne].
    + exists [], tags. split; [done|]. apply not_elem_of_nil.
    + apply elem_of_cons in Hin as [->|Hin]; [done|].
      destruct (IH Hin) as (pre & post & -> & Hpre).
      exists (t :: pre), post. split; [done|].
      apply not_elem_of_cons. split; [congruence|done].
Qed.

End TagSearch.

(** ** Running the handlers *)

Ltac unfold_handler :=
  unfold bind, get, put, emit, ret, mu_Lock, mu_Unlock, API_PostMessage,
    exec, trace in *.

Lemma parseQueueID_inr command id :
  parseQueueID command = inr id ->
  (List.length (Fields command) <? 3)%nat = false
  /\ Atoi (nth 2 (Fields command) EmptyString) = Some id.
Proof.
  unfold parseQueueID.
  destruct (List.length (Fields command) <? 3)%nat; [done|].
  destruct (Atoi _); [|done]. intros [= ->]. done.
Qed.

Lemma handleQueueList_run range ev sh :
  handleQueueList range ev sh
  = (tt, sh, [MuLock; PostMessage (Channel ev) (list_msg range sh); MuUnlock]).
Proof.
  unfold handleQueueList, list_msg. unfold_handler. simpl.
  by destruct (size (Queues sh) =? 0)%nat.
Qed.

Section Approve.

Variable range : gmap Z Queue -> list Queue.
Variables (ev : MessageEvent) (sh : SlackHandler) (id : Z) (queue : Queue).
Hypothesis Hid : parseQueueID (Text ev) = inr id.
Hypothesis Hqueue : Queues sh !! id = Some queue.

Lemma handleQueueApprove_run :
  handleQueueApprove range ev sh =
  if (0 <? List.length (Tags queue))%nat then
    let tagIndex := find_tag (mention_of (User ev)) 0 (Tags queue) in
    if negb (tagIndex =? -1) then
      let sh' :=
        set_Queues
          (<[id := set_Tags (remove_index tagIndex (Tags queue)) queue]>
             (Queues sh)) sh in
      (tt, sh',
       [MuLock; MuUnlock;
        PostMessage (Channel ev) "Queue approved and tag removed.";
        MuLock; PostMessage (Channel ev) (list_msg range sh'); MuUnlock])
    else
      (tt, sh,
       [MuLock; MuUnlock;
        PostMessage (Channel ev) "Your tag was not found in the queue."])
  else
    (tt, sh,
     [MuLock; MuUnlock;
      PostMessage (Channel ev) "Queue completed; no tags left.";
      MuLock; PostMessage (Channel ev) (list_msg range sh); MuUnlock]).
Proof.
  destruct (parseQueueID_inr _ _ Hid) as [Hlen Hatoi].
  unfold handleQueueApprove. rewrite Hlen, Hatoi.
  unfold_handler. simpl. rewrite Hqueue.
  destruct (0 <? List.length (Tags queue))%nat; simpl.
  - destruct (find_tag _ 0 (Tags queue) =? -1); simpl.
    + done.
    + by rewrite handleQueueList_run.
  - by rewrite handleQueueList_run.
Qed.

Lemma handleQueueApprove_found pre post :
  Tags queue = pre ++ mention_of (User ev) :: post ->
  mention_of (User ev) ∉ pre ->
  let sh' :=
    set_Queues (<[id := set_Tags (pre ++ post) queue]> (Queues sh)) sh in
  handleQueueApprove range ev sh =
  (tt, sh',
   [MuLock; MuUnlock;
    PostMessage (Channel ev) "Queue approved and tag removed.";
    MuLock; PostMessage (Channel ev) (list_msg range sh'); MuUnlock]).
Proof.
  intros Htags Hpre. rewrite handleQueueApprove_run, Htags.
  rewrite find_tag_first by done. rewrite Z.add_0_l.
  cbv zeta. rewrite remove_index_first.
  replace (0 <? List.length (pre ++ mention_of (User ev) :: post))%nat
    with true.
  2:{ symmetry. apply Nat.ltb_lt. rewrite length_app. simpl. lia. }
  replace (Z.of_nat (List.length pre) =? -1) with false; [done|].
  symmetry. apply Z.eqb_neq. lia.
Qed.

Lemma handleQueueApprove_absent :
  Tags queue <> [] ->
  mention_of (User ev) ∉ Tags queue ->
  handleQueueApprove range ev sh =
  (tt, sh,
   [MuLock; MuUnlock;
    PostMessage (Channel ev) "Your tag was not found in the queue."]).
Proof.
  intros Hne Hno. rewrite handleQueueApprove_run.
  rewrite find_tag_absent by done. simpl.
  by destruct (Tags queue).
Qed.

Lemma handleQueueApprove_empty :
  Tags queue = [] ->
  handleQueueApprove range ev sh =
  (tt, sh,
   [MuLock; MuUnlock;
    PostMessage (Channel ev) "Queue completed; no tags left.";
    MuLock; PostMessage (Channel ev) (list_msg range sh); MuUnlock]).
Proof. intros Htags. by rewrite handleQueueApprove_run, Htags. Qed.

End Approve.

(** ** [queue approve] *)

(** C1.  When the tags of the queue named by the command hold the mention
    ["<@" + user + ">"] of the approving user, [handleQueueApprove] removes
    the first occurrence of it and nothing else: the queue stored under the
    id afterwards has the tags that stood before that occurrence followed
    by the tags that stood after it, in their order, and its id, title,
    link, owner and review flag as before; the other queues, [NextID] and
    the bot id are untouched.  The reply is the approval notice followed by
    the listing of the updated registry. *)
Theorem approve_removes_first_tag range ev sh id queue :
  parseQueueID (Text ev) = inr id ->
  Queues sh !! id = Some queue ->
  ("<@" +:+ User ev +:+ ">") ∈ Tags queue ->
  exists pre post,
    Tags queue = pre ++ ("<@" +:+ User ev +:+ ">") :: post
    /\ (("<@" +:+ User ev +:+ ">") ∉ pre)
    /\ Queues (exec (handleQueueApprove range ev) sh) !! id
       = Some {| ID := ID queue; Title := Title queue; MRLink := MRLink queue;
                 Tags := pre ++ post; Owner := Owner queue;
                 InReviewState := InReviewState queue |}
    /\ (forall id', id' <> id ->
          Queues (exec (handleQueueApprove range ev) sh) !! id'
          = Queues sh !! id')
    /\ NextID (exec (handleQueueApprove range ev) sh) = NextID sh
    /\ BotUserID (exec (handleQueueApprove range ev) sh) = BotUserID sh
    /\ exec (handleQueueApprove range ev) sh
       = set_Queues (<[id := set_Tags (pre ++ post) queue]> (Queues sh)) sh
    /\ posts (trace (handleQueueApprove range ev) sh)
       = ["Queue approved and tag removed.";
          list_msg range (exec (handleQueueApprove range ev) sh)].
Proof.
  intros Hid Hqueue Hin.
  destruct (first_occurrence _ _ Hin) as (pre & post & Htags & Hpre).
  exists pre, post. split; [done|]. split; [done|].
  unfold exec, trace.
  rewrite (handleQueueApprove_found range ev sh id queue Hid Hqueue pre post
             Htags Hpre).
  cbn [fst snd]. split; [apply lookup_insert_eq|].
  split; [intros id' Hne; by apply lookup_insert_ne|]. done.
Qed.

(** C3.  When the queue still has tags and none of them is the mention of
    the approving user, [handleQueueApprove] answers that the tag was not
    found and stops there: the handler state, with every field of every
    queue, is the one before the call, and no listing follows. *)
Theorem approve_untagged_forbidden range ev sh id queue :
  parseQueueID (Text ev) = inr id ->
  Queues sh !! id = Some queue ->
  Tags queue <> [] ->
  mention_of (User ev) ∉ Tags queue ->
  exec (handleQueueApprove range ev) sh = sh
  /\ posts (trace (handleQueueApprove range ev) sh)
     = ["Your tag was not found in the queue."].
Proof.
  intros Hid Hqueue Hne Hno. unfold exec, trace.
  by rewrite (handleQueueApprove_absent range ev sh id queue Hid Hqueue Hne Hno).
Qed.

(** C4.  When the queue has no tags left, [handleQueueApprove] by any user
    answers with the completion notice, followed by the listing, and leaves
    the handler state as it was. *)
Theorem approve_no_tags_completion range ev sh id queue :
  parseQueueID (Text ev) = inr id ->
  Queues sh !! id = Some queue ->
  Tags queue = [] ->
  exec (handleQueueApprove range ev) sh = sh
  /\ posts (trace (handleQueueApprove range ev) sh)
     = ["Queue completed; no tags left."; list_msg range sh].
Proof.
  intros Hid Hqueue Htags. unfold exec, trace.
  by rewrite (handleQueueApprove_empty range ev sh id queue Hid Hqueue Htags).
Qed.

(** C8.  When the only tag left is the mention of the approving user, the
    approval empties the tags and changes nothing else: the queue stays in
    the registry under its id with its id, title, link, owner and review
    flag (a [Queue] has no other field), the other queues and [NextID] are
    as before. *)
Theorem approve_last_tag_keeps_entry range ev sh id queue :
  parseQueueID (Text ev) = inr id ->
  Queues sh !! id = Some queue ->
  Tags queue = [mention_of (User ev)] ->
  let sh' := exec (handleQueueApprove range ev) sh in
  Queues sh' !! id
  = Some {| ID := ID queue; Title := Title queue; MRLink := MRLink queue;
            Tags := []; Owner := Owner queue;
            InReviewState := InReviewState queue |}
  /\ (forall id', id' <> id -> Queues sh' !! id' = Queues sh !! id')
  /\ NextID sh' = NextID sh
  /\ BotUserID sh' = BotUserID sh
  /\ posts (trace (handleQueueApprove range ev) sh)
     = ["Queue approved and tag removed."; list_msg range sh'].
Proof.
  intros Hid Hqueue Htags sh'. subst sh'. unfold exec, trace.
  rewrite (handleQueueApprove_found range ev sh id queue Hid Hqueue [] []
             Htags (not_elem_of_nil _)).
  simpl. split; [apply lookup_insert_eq|].
  split; [|done]. intros id' Hne. by apply lookup_insert_ne.
Qed.

Lemma approve_removes_first_tag_witness :
  parseQueueID (Text (Sample.msg "U1" "queue approve 1")) = inr 1
  /\ Queues Sample.sh !! 1 = Some Sample.fix_bug
  /\ Tags Sample.fix_bug = ["<@U2>"; "<@U1>"; "<@U3>"; "<@U1>"]
  /\ Queues (exec (handleQueueApprove range_listed
                     (Sample.msg "U1" "queue approve 1")) Sample.sh) !! 1
     = Some {| ID := 1; Title := "Fix"; MRLink := "http://x";
               Tags := ["<@U2>"; "<@U3>"; "<@U1>"];
               Owner := "U9"; InReviewState := false |}
  /\ exists pre post,
       Tags Sample.fix_bug = pre ++ "<@U1>" :: post
       /\ ("<@U1>" ∉ pre)
       /\ Queues (exec (handleQueueApprove range_listed
                          (Sample.msg "U1" "queue approve 1")) Sample.sh) !! 1
          = Some {| ID := 1; Title := "Fix"; MRLink := "http://x";
                    Tags := pre ++ post; Owner := "U9";
                    InReviewState := false |}.
Proof.
  split; [reflexivity|]. split; [reflexivity|]. split; [reflexivity|].
  split; [reflexivity|].
  destruct (approve_removes_first_tag range_listed
              (Sample.msg "U1" "queue approve 1") Sample.sh 1 Sample.fix_bug)
    as (pre & post & Htags & Hpre & Hstored & _).
  - reflexivity.
  - reflexivity.
  - compute_done.
  - exists pre, post. split; [exact Htags|]. split; [exact Hpre|].
    exact Hstored.
Defined.

Lemma approve_untagged_forbidden_witness :
  parseQueueID (Text (Sample.msg "alice" "queue approve 3")) = inr 3
  /\ Queues Sample.sh !! 3 = Some Sample.bare_tags
  /\ Tags Sample.bare_tags <> []
  /\ ("<@alice>" ∉ Tags Sample.bare_tags)
  /\ exec (handleQueueApprove range_listed
             (Sample.msg "alice" "queue approve 3")) Sample.sh = Sample.sh
  /\ posts (trace (handleQueueApprove range_listed
                     (Sample.msg "alice" "queue approve 3")) Sample.sh)
     = ["Your tag was not found in the queue."].
Proof.
  split; [reflexivity|]. split; [reflexivity|].
  split; [discriminate|]. split; [compute_done|].
  apply (approve_untagged_forbidden range_listed
           (Sample.msg "alice" "queue approve 3") Sample.sh 3 Sample.bare_tags).
  - reflexivity.
  - reflexivity.
  - discriminate.
  - compute_done.
Defined.

Lemma approve_no_tags_completion_witness :
  parseQueueID (Text (Sample.msg "U7" "queue approve 2")) = inr 2
  /\ Queues Sample.sh !! 2 = Some Sample.done_queue
  /\ Tags Sample.done_queue = []
  /\ exec (handleQueueApprove range_listed
             (Sample.msg "U7" "queue approve 2")) Sample.sh = Sample.sh
  /\ posts (trace (handleQueueApprove range_listed
                     (Sample.msg "U7" "queue approve 2")) Sample.sh)
     = ["Queue completed; no tags left."; list_msg range_listed Sample.sh].
Proof.
  split; [reflexivity|]. split; [reflexivity|]. split; [reflexivity|].
  apply (approve_no_tags_completion range_listed
           (Sample.msg "U7" "queue approve 2") Sample.sh 2 Sample.done_queue);
    reflexivity.
Defined.

Lemma approve_last_tag_keeps_entry_witness :
  parseQueueID (Text (Sample.msg "U3" "queue approve 4")) = inr 4
  /\ Queues Sample.sh !! 4 = Some Sample.last_tag
  /\ Tags Sample.last_tag = ["<@U3>"]
  /\ Queues (exec (handleQueueApprove range_listed
                     (Sample.msg "U3" "queue approve 4")) Sample.sh) !! 4
     = Some {| ID := 4; Title := "Bump"; MRLink := "http://w"; Tags := [];
               Owner := "U2"; InReviewState := true |}.
Proof.
  split; [reflexivity|]. split; [reflexivity|]. split; [reflexivity|].
  apply (approve_last_tag_keeps_entry range_listed
           (Sample.msg "U3" "queue approve 4") Sample.sh 4 Sample.last_tag);
    reflexivity.
Defined.

(** A run of approvals by users none of whom is mentioned in the tags. *)
Lemma approve_all_absent range sh id queue evs :
  Queues sh !! id = Some queue ->
  Tags queue <> [] ->
  Forall (fun ev => parseQueueID (Text ev) = inr id
                    /\ ("<@" +:+ User ev +:+ ">") ∉ Tags queue) evs ->
  approve_all range evs sh =
  (tt, sh,
   concat (map (fun ev =>
                  [MuLock; MuUnlock;
                   PostMessage (Channel ev)
                     "Your tag was not found in the queue."]) evs)).
Proof.
  intros Hqueue Hne. induction 1 as [|ev evs [Hid Hno] _ IH]; [done|].
  simpl. unfold bind.
  rewrite (handleQueueApprove_absent range ev sh id queue Hid Hqueue Hne Hno).
  by rewrite IH.
Qed.

(** C10.  On a queue with tags, [handleQueueApprove] approves exactly when
    one of the tags is the string ["<@" + user + ">"] built from the id of
    the approving user.  Approvals by users for whom no tag has that exact
    form (the tags may hold them in another form, such as a bare
    ["@name"]) are all answered with the not-found notice and, however
    many of them follow each other, leave the registry, and with it the
    tags, as they were. *)
Theorem approve_needs_exact_mention range sh id queue :
  Queues sh !! id = Some queue ->
  Tags queue <> [] ->
  (forall ev,
      parseQueueID (Text ev) = inr id ->
      head (posts (trace (handleQueueApprove range ev) sh))
      = Some "Queue approved and tag removed."
      <-> exists tag, tag ∈ Tags queue /\ tag = "<@" +:+ User ev +:+ ">")
  /\ (forall evs,
         Forall (fun ev => parseQueueID (Text ev) = inr id
                           /\ ("<@" +:+ User ev +:+ ">") ∉ Tags queue) evs ->
         exec (approve_all range evs) sh = sh
         /\ posts (trace (approve_all range evs) sh)
            = replicate (List.length evs) "Your tag was not found in the queue.").
Proof.
  intros Hqueue Hne. split.
  - intros ev Hid. unfold trace.
    destruct (decide (mention_of (User ev) ∈ Tags queue)) as [Hin|Hno].
    + destruct (first_occurrence _ _ Hin) as (pre & post & Htags & Hpre).
      rewrite (handleQueueApprove_found range ev sh id queue Hid Hqueue
                 pre post Htags Hpre).
      split; [|done]. intros _. by exists (mention_of (User ev)).
    + rewrite (handleQueueApprove_absent range ev sh id queue Hid Hqueue Hne Hno).
      split; [done|]. intros (tag & Hin & ->). done.
  - intros evs Hall. unfold exec, trace.
    rewrite (approve_all_absent range sh id queue evs Hqueue Hne Hall).
    split; [done|]. simpl. clear Hall.
    induction evs as [|ev evs IH]; [done|]. simpl. by rewrite <- IH.
Qed.

Lemma approve_needs_exact_mention_witness :
  Queues Sample.sh !! 3 = Some Sample.bare_tags
  /\ Tags Sample.bare_tags = ["@alice"; "@bob"]
  /\ exec (approve_all range_listed
             [Sample.msg "alice" "queue approve 3";
              Sample.msg "@alice" "queue approve 3";
              Sample.msg "bob" "queue approve 3"]) Sample.sh = Sample.sh
  /\ posts (trace (approve_all range_listed
                     [Sample.msg "alice" "queue approve 3";
                      Sample.msg "@alice" "queue approve 3";
                      Sample.msg "bob" "queue approve 3"]) Sample.sh)
     = ["Your tag was not found in the queue.";
        "Your tag was not found in the queue.";
        "Your tag was not found in the queue."].
Proof.
  split; [reflexivity|]. split; [reflexivity|].
  apply (approve_needs_exact_mention range_listed Sample.sh 3 Sample.bare_tags).
  - reflexivity.
  - discriminate.
  - repeat constructor; compute_done.
Defined.

(** ** [queue review] and [queue update] *)

Section Review.

Variable range : gmap Z Queue -> list Queue.
Variables (ev : MessageEvent) (sh : SlackHandler) (id : Z) (queue : Queue).
Hypothesis Hid : parseQueueID (Text ev) = inr id.
Hypothesis Hqueue : Queues sh !! id = Some queue.

Lemma handleQueueReview_run :
  let sh' :=
    set_Queues (<[id := set_InReviewState true queue]> (Queues sh)) sh in
  handleQueueReview range ev sh =
  (tt, sh',
   [MuLock;
    PostMessage (Channel ev)
      ("Queue " +:+ pretty (ID queue) +:+ " is now in review.");
    MuUnlock;
    MuLock; PostMessage (Channel ev) (list_msg range sh'); MuUnlock]).
Proof.
  unfold handleQueueReview. rewrite Hid. unfold_handler. simpl.
  rewrite Hqueue. simpl. by rewrite handleQueueList_run.
Qed.

Lemma handleQueueUpdate_run :
  let sh' :=
    set_Queues (<[id := set_InReviewState false queue]> (Queues sh)) sh in
  handleQueueUpdate range ev sh =
  (tt, sh',
   [MuLock;
    PostMessage (Channel ev)
      ("Queue " +:+ pretty (ID queue)
       +:+ " has been updated and is no longer in review.");
    MuUnlock;
    MuLock; PostMessage (Channel ev) (list_msg range sh'); MuUnlock]).
Proof.
  unfold handleQueueUpdate. rewrite Hid. unfold_handler. simpl.
  rewrite Hqueue. simpl. by rewrite handleQueueList_run.
Qed.

End Review.

Lemma set_Queues_same sh : set_Queues (Queues sh) sh = sh.
Proof. by destruct sh. Qed.

Lemma set_InReviewState_same queue :
  set_InReviewState (InReviewState queue) queue = queue.
Proof. by destruct queue. Qed.

(** C7.  For a queue of the registry, [queue review] followed by
    [queue update] of the same id leaves the queue under its id with the
    review flag off and its id, title, link, tags and owner as they were
    before the two commands; the rest of the handler state is unchanged, so
    that a queue that was not in review is back in the state it started
    from. *)
Theorem review_then_update_restores range ev1 ev2 sh id queue :
  parseQueueID (Text ev1) = inr id ->
  parseQueueID (Text ev2) = inr id ->
  Queues sh !! id = Some queue ->
  let sh1 := exec (handleQueueReview range ev1) sh in
  let sh2 := exec (handleQueueUpdate range ev2) sh1 in
  Queues sh1 !! id = Some (set_InReviewState true queue)
  /\ Queues sh2 !! id
     = Some {| ID := ID queue; Title := Title queue; MRLink := MRLink queue;
               Tags := Tags queue; Owner := Owner queue;
               InReviewState := false |}
  /\ sh2 = set_Queues (<[id := set_InReviewState false queue]> (Queues sh)) sh
  /\ (InReviewState queue = false -> sh2 = sh).
Proof.
  intros Hid1 Hid2 Hqueue sh1 sh2.
  assert (Hsh1 : sh1 = set_Queues
                         (<[id := set_InReviewState true queue]> (Queues sh)) sh).
  { subst sh1. unfold exec.
    by rewrite (handleQueueReview_run range ev1 sh id queue Hid1 Hqueue). }
  assert (Hlook : Queues sh1 !! id = Some (set_InReviewState true queue)).
  { rewrite Hsh1. simpl. apply lookup_insert_eq. }
  assert (Hsh2 : sh2 = set_Queues
                         (<[id := set_InReviewState false queue]> (Queues sh)) sh).
  { subst sh2. unfold exec.
    rewrite (handleQueueUpdate_run range ev2 sh1 id _ Hid2 Hlook). simpl.
    rewrite Hsh1. unfold set_Queues. simpl. by rewrite insert_insert_eq. }
  split; [done|]. split; [|split; [done|]].
  - rewrite Hsh2. simpl. apply lookup_insert_eq.
  - intros Hflag. rewrite Hsh2, <- Hflag, set_InReviewState_same.
    rewrite insert_id by done. apply set_Queues_same.
Qed.

Lemma review_then_update_restores_witness :
  parseQueueID (Text (Sample.msg "U9" "queue review 1")) = inr 1
  /\ parseQueueID (Text (Sample.msg "U9" "queue update 1")) = inr 1
  /\ Queues Sample.sh !! 1 = Some Sample.fix_bug
  /\ Queues (exec (handleQueueReview range_listed
                     (Sample.msg "U9" "queue review 1")) Sample.sh) !! 1
     = Some (set_InReviewState true Sample.fix_bug)
  /\ exec (handleQueueUpdate range_listed (Sample.msg "U9" "queue update 1"))
       (exec (handleQueueReview range_listed
                (Sample.msg "U9" "queue review 1")) Sample.sh)
     = Sample.sh.
Proof.
  split; [reflexivity|]. split; [reflexivity|]. split; [reflexivity|].
  destruct (review_then_update_restores range_listed
              (Sample.msg "U9" "queue review 1")
              (Sample.msg "U9" "queue update 1")
              Sample.sh 1 Sample.fix_bug eq_refl eq_refl eq_refl)
    as (H1 & _ & _ & H4).
  split; [exact H1|]. apply H4. reflexivity.
Defined.

(** ** Strings *)

Section StringFacts.

Implicit Types s t u : string.

Lemma append_cons c s t : String c s +:+ t = String c (s +:+ t).
Proof. reflexivity. Qed.

Lemma append_assoc s t u : (s +:+ t) +:+ u = s +:+ (t +:+ u).
Proof.
  induction s as [|c s IH]; [done|]. by rewrite !append_cons, IH.
Qed.

Lemma append_empty_r s : s +:+ EmptyString = s.
Proof. induction s as [|c s IH]; [done|]. by rewrite append_cons, IH. Qed.

Lemma prefix_append s t : String.prefix s (s +:+ t) = true.
Proof.
  induction s as [|c s IH]; [by destruct t|].
  rewrite append_cons. simpl. by destruct (ascii_dec c c).
Qed.

Lemma Contains_here s t : Contains (s +:+ t) s = true.
Proof.
  destruct s as [|c s]; [by destruct t|].
  rewrite append_cons. simpl Contains.
  destruct (ascii_dec c c); [|done]. by rewrite prefix_append.
Qed.

Lemma Contains_later s t u : Contains t u = true -> Contains (s +:+ t) u = true.
Proof.
  intros Ht. induction s as [|c s IH]; [done|].
  rewrite append_cons. simpl Contains. rewrite IH. apply orb_true_r.
Qed.

Lemma Contains_middle s t u : Contains (s +:+ t +:+ u) t = true.
Proof. apply Contains_later, Contains_here. Qed.

End StringFacts.

(** ** [queue list] *)

Lemma queueList_from (acc : string) (queues : list Queue) :
  fold_left (fun b queue => b +:+ queue_line queue) queues acc
  = acc +:+ foldr (fun queue s => queue_line queue +:+ s) EmptyString queues.
Proof.
  revert acc. induction queues as [|q queues IH]; intros acc;
    cbn [fold_left foldr].
  - by rewrite append_empty_r.
  - by rewrite IH, append_assoc.
Qed.

Lemma queueList_lines (queues : list Queue) :
  queueList queues
  = foldr (fun queue s => queue_line queue +:+ s) EmptyString queues.
Proof. unfold queueList. by rewrite queueList_from. Qed.

Lemma lines_Contains (q : Queue) (queues : list Queue) :
  q ∈ queues ->
  Contains (foldr (fun queue s => queue_line queue +:+ s) EmptyString queues)
    (queue_line q) = true.
Proof.
  induction queues as [|q' queues IH]; intros Hin.
  - by apply elem_of_nil in Hin.
  - cbn [foldr]. apply elem_of_cons in Hin as [->|Hin].
    + apply Contains_here.
    + by apply Contains_later, IH.
Qed.

(** C6.  [handleQueueList] changes nothing.  On the empty registry it posts
    the fixed message ["No queues available."].  On any other registry it
    posts one message made of one line for each queue of the registry, in
    the order the map is visited: the line shows the id, the title and the
    link, followed by the owner when the queue is in review and by the tag
    list when it is not. *)
Theorem list_renders_registry range ev sh :
  (forall m, range m ≡ₚ (map_to_list m).*2) ->
  let line := fun q : Queue =>
    "ID: " +:+ pretty (ID q) +:+ " | Title: " +:+ Title q
    +:+ " | MR: " +:+ MRLink q +:+ " | "
    +:+ (if InReviewState q then "Owner: <@" +:+ Owner q +:+ ">"
         else "Tags: " +:+ Join (Tags q) ", ")
    +:+ LF in
  exec (handleQueueList range ev) sh = sh
  /\ (Queues sh = ∅ ->
      posts (trace (handleQueueList range ev) sh) = ["No queues available."])
  /\ (Queues sh <> ∅ ->
      exists queues msg,
        queues ≡ₚ (map_to_list (Queues sh)).*2
        /\ posts (trace (handleQueueList range ev) sh) = [msg]
        /\ msg = foldr (fun q s => line q +:+ s) EmptyString queues
        /\ forall id q, Queues sh !! id = Some q -> Contains msg (line q) = true).
Proof.
  intros Hperm line. unfold exec, trace. rewrite handleQueueList_run. simpl.
  split; [done|]. unfold list_msg. split.
  - intros ->. by rewrite map_size_empty.
  - intros Hne.
    destruct (size (Queues sh) =? 0)%nat eqn:Hsize.
    { apply Nat.eqb_eq, map_size_empty_iff in Hsize. done. }
    exists (range (Queues sh)), (queueList (range (Queues sh))).
    split; [apply Hperm|]. split; [done|].
    split; [apply queueList_lines|].
    intros id q Hq. rewrite queueList_lines.
    apply (lines_Contains q). rewrite Hperm.
    apply list_elem_of_fmap. exists (id, q). split; [done|].
    by apply elem_of_map_to_list.
Qed.

Lemma list_renders_registry_witness :
  (forall m, range_listed m ≡ₚ (map_to_list m).*2)
  /\ posts (trace (handleQueueList range_listed (Sample.msg "U1" "queue list"))
              (NewSlackHandler "BOT"))
     = ["No queues available."]
  /\ exists queues msg,
       queues ≡ₚ (map_to_list (Queues Sample.sh)).*2
       /\ posts (trace (handleQueueList range_listed
                          (Sample.msg "U1" "queue list")) Sample.sh) = [msg]
       /\ Contains msg
            ("ID: 4 | Title: Bump | MR: http://w | Owner: <@U2>" +:+ LF) = true
       /\ Contains msg
            ("ID: 3 | Title: Refactor | MR: http://z | Tags: @alice, @bob" +:+ LF)
          = true.
Proof.
  split; [intros m; reflexivity|].
  split.
  - apply (list_renders_registry range_listed (Sample.msg "U1" "queue list")
             (NewSlackHandler "BOT")); [intros m; reflexivity | reflexivity].
  - destruct (list_renders_registry range_listed (Sample.msg "U1" "queue list")
                Sample.sh (fun m => reflexivity _))
      as (_ & _ & Hlist).
    destruct Hlist as (queues & msg & Hperm & Hposts & _ & Hshown);
      [discriminate|].
    exists queues, msg. split; [exact Hperm|]. split; [exact Hposts|].
    split.
    + apply (Hshown 4 Sample.last_tag). reflexivity.
    + apply (Hshown 3 Sample.bare_tags). reflexivity.
Defined.

(** ** The registry invariant *)

Lemma ids_below_counter_init bot : ids_below_counter (NewSlackHandler bot).
Proof. intros id queue Hq. simpl in Hq. by rewrite lookup_empty in Hq. Qed.

Lemma ids_below_counter_change sh id queue queue' :
  ids_below_counter sh ->
  Queues sh !! id = Some queue ->
  ID queue' = ID queue ->
  ids_below_counter (set_Queues (<[id := queue']> (Queues sh)) sh).
Proof.
  intros Hinv Hq Hsame id' q'. simpl. rewrite lookup_insert.
  case_decide as Hid.
  - intros [= <-]. subst id'. rewrite Hsame. by apply Hinv.
  - apply Hinv.
Qed.

Lemma ids_below_counter_delete sh id :
  ids_below_counter sh ->
  ids_below_counter (set_Queues (delete id (Queues sh)) sh).
Proof.
  intros Hinv id' q'. simpl. rewrite lookup_delete.
  case_decide; [done|]. apply Hinv.
Qed.

Lemma ids_below_counter_fresh sh :
  ids_below_counter sh -> Queues sh !! NextID sh = None.
Proof.
  intros Hinv. destruct (Queues sh !! NextID sh) as [q|] eqn:Hq; [|done].
  apply Hinv in Hq. lia.
Qed.

(** ** [queue add] *)

Lemma Contains_refl (s : string) : Contains s s = true.
Proof. rewrite <- (append_empty_r s) at 1. apply Contains_here. Qed.

Lemma handleQueueAdd_usage ev sh :
  (List.length (Fields (Text ev)) < 4)%nat ->
  handleQueueAdd ev sh
  = (tt, sh,
     [PostMessage (Channel ev) "Usage: queue add <title> <MR link> @tag @tag"]).
Proof.
  intros Hlen. unfold handleQueueAdd.
  apply Nat.ltb_lt in Hlen. by rewrite Hlen.
Qed.

Lemma handleQueueAdd_run ev sh :
  (4 <= List.length (Fields (Text ev)))%nat ->
  let queue :=
    {| ID := NextID sh;
       Title := nth 2 (Fields (Text ev)) EmptyString;
       MRLink := nth 3 (Fields (Text ev)) EmptyString;
       Tags := drop 4 (Fields (Text ev));
       Owner := User ev;
       InReviewState := false |} in
  handleQueueAdd ev sh
  = (tt,
     {| Queues := <[NextID sh := queue]> (Queues sh);
        NextID := GoInt.incr (NextID sh);
        BotUserID := BotUserID sh |},
     [MuLock; PostMessage (Channel ev) (added_msg queue); MuUnlock]).
Proof.
  intros Hlen queue. unfold handleQueueAdd.
  apply Nat.ltb_ge in Hlen. by rewrite Hlen.
Qed.

(** C5, as the code has it.  A [queue add] message with a title and a link
    token makes [handleQueueAdd] build a queue with the current [NextID] as
    id (an id no queue of the registry has, as long as the registry
    invariant holds), the two tokens as title and link, the remaining
    tokens as tags, the sender as owner and the review flag off; the queue
    is stored under that id, the other ids keep their queues and [NextID]
    moves on by one.  The confirmation shows the title, the link and the
    tag list joined by commas; it is made of these three only. *)
Theorem add_creates_entry ev sh :
  (4 <= List.length (Fields (Text ev)))%nat ->
  let title := nth 2 (Fields (Text ev)) EmptyString in
  let link := nth 3 (Fields (Text ev)) EmptyString in
  let tags := drop 4 (Fields (Text ev)) in
  let sh' := exec (handleQueueAdd ev) sh in
  (ids_below_counter sh -> Queues sh !! NextID sh = None)
  /\ Queues sh' !! NextID sh
     = Some {| ID := NextID sh; Title := title; MRLink := link; Tags := tags;
               Owner := User ev; InReviewState := false |}
  /\ (forall id, id <> NextID sh -> Queues sh' !! id = Queues sh !! id)
  /\ NextID sh' = GoInt.incr (NextID sh)
  /\ exists msg,
       posts (trace (handleQueueAdd ev) sh) = [msg]
       /\ msg = "Queue added: *" +:+ title +:+ "*" +:+ LF
                +:+ "MR Link: " +:+ link +:+ LF
                +:+ "Tags: " +:+ Join tags ", "
       /\ Contains msg title = true
       /\ Contains msg link = true
       /\ Contains msg (Join tags ", ") = true.
Proof.
  intros Hlen title link tags sh'. subst sh'. unfold exec, trace.
  rewrite (handleQueueAdd_run ev sh Hlen). cbn [fst snd Queues NextID].
  split; [apply ids_below_counter_fresh|].
  split; [apply lookup_insert_eq|].
  split; [intros id Hne; by apply lookup_insert_ne|].
  split; [done|].
  eexists. split; [reflexivity|]. split; [reflexivity|].
  unfold added_msg. cbn [Title MRLink Tags]. fold title link tags.
  split; [apply Contains_middle|].
  split.
  - do 5 apply Contains_later. apply Contains_here.
  - do 8 apply Contains_later. apply Contains_refl.
Qed.

Lemma add_creates_entry_witness :
  (4 <= List.length (Fields (Text (Sample.msg "U9" "queue add Fix http://x <@U1> <@U2>"))))%nat
  /\ Queues (exec (handleQueueAdd
                     (Sample.msg "U9" "queue add Fix http://x <@U1> <@U2>"))
               (NewSlackHandler "BOT")) !! 1
     = Some {| ID := 1; Title := "Fix"; MRLink := "http://x";
               Tags := ["<@U1>"; "<@U2>"]; Owner := "U9";
               InReviewState := false |}.
Proof.
  split; [vm_compute; lia|].
  apply (add_creates_entry
           (Sample.msg "U9" "queue add Fix http://x <@U1> <@U2>")
           (NewSlackHandler "BOT")).
  vm_compute; lia.
Defined.

(** C5, as the specification has it, fails: the confirmation of the first
    queue, which gets the id 1, is made of the title, the link and the tags
    and shows no 1. *)
Lemma add_confirmation_omits_id :
  (4 <= List.length (Fields (Text (Sample.msg "U9" "queue add Fix http://x <@U2>"))))%nat
  /\ NextID (NewSlackHandler "BOT") = 1
  /\ ID <$> (Queues (exec (handleQueueAdd
                             (Sample.msg "U9" "queue add Fix http://x <@U2>"))
                       (NewSlackHandler "BOT")) !! 1) = Some 1
  /\ posts (trace (handleQueueAdd
                     (Sample.msg "U9" "queue add Fix http://x <@U2>"))
              (NewSlackHandler "BOT"))
     = ["Queue added: *Fix*" +:+ LF +:+ "MR Link: http://x" +:+ LF
        +:+ "Tags: <@U2>"]
  /\ Contains ("Queue added: *Fix*" +:+ LF +:+ "MR Link: http://x" +:+ LF
               +:+ "Tags: <@U2>") (pretty 1) = false
  /\ ~ (forall ev sh,
           (4 <= List.length (Fields (Text ev)))%nat ->
           exists msg,
             posts (trace (handleQueueAdd ev) sh) = [msg]
             /\ Contains msg (pretty (NextID sh)) = true).
Proof.
  split; [vm_compute; lia|]. split; [reflexivity|]. split; [reflexivity|].
  split; [reflexivity|]. split; [reflexivity|].
  intros Hclaim.
  destruct (Hclaim (Sample.msg "U9" "queue add Fix http://x <@U2>")
              (NewSlackHandler "BOT")) as (msg & Hposts & Hshown).
  - vm_compute; lia.
  - vm_compute in Hposts. injection Hposts as <-. vm_compute in Hshown.
    discriminate.
Qed.

(** ** The dispatcher *)

(** Whatever holds of doing nothing and of each of the seven commands holds
    of [handleCallbackEvent]. *)
Lemma handleCallbackEvent_cases range ev sh
    (P : unit * SlackHandler * list Event -> Prop) :
  P (tt, sh, []) ->
  P (handleQueueAdd ev sh) ->
  P (handleQueueList range ev sh) ->
  P (handleQueueRemove ev sh) ->
  P (handleQueueApprove range ev sh) ->
  P (handleQueueReview range ev sh) ->
  P (handleQueueUpdate range ev sh) ->
  P (handleQueueHelp ev sh) ->
  P (handleCallbackEvent range ev sh).
Proof.
  intros Hnone Hadd Hlist Hremove Happrove Hreview Hupdate Hhelp.
  assert (Hrun : forall h : Handler unit,
             (let '(b, sh2, t2) := h sh in (b, sh2, [] ++ t2)) = h sh).
  { intros h. by destruct (h sh) as [[[] ?] ?]. }
  unfold handleCallbackEvent, bind, get.
  destruct (_ || _); [done|].
  repeat (destruct (HasPrefix _ _); [by rewrite Hrun|]).
  done.
Qed.

Lemma handle_all_cons range ev evs sh :
  exec (handle_all range (ev :: evs)) sh
  = exec (handle_all range evs) (exec (handleCallbackEvent range ev) sh).
Proof.
  unfold exec. simpl. unfold bind.
  destruct (handleCallbackEvent range ev sh) as [[[] sh1] t1]. simpl.
  by destruct (handle_all range evs sh1) as [[[] sh2] t2].
Qed.

(** ** The counter *)

Lemma incr_no_wrap (n : Z) :
  GoInt.min_int <= n < GoInt.max_int -> GoInt.incr n = n + 1.
Proof.
  unfold GoInt.incr, GoInt.wrap, GoInt.min_int, GoInt.max_int, GoInt.int_size.
  change (2 ^ (64 - 1)) with 9223372036854775808.
  change (2 ^ 64) with 18446744073709551616.
  intros Hn. rewrite Z.mod_small by lia. lia.
Qed.

(** Case analysis on the tests a handler makes, in the order it makes
    them. *)
Ltac branch :=
  match goal with
  | |- context [match parseQueueID ?t with _ => _ end] =>
    destruct (parseQueueID t) eqn:?
  | |- context [match Atoi ?t with _ => _ end] => destruct (Atoi t) eqn:?
  | |- context [match Queues ?sh !! ?k with _ => _ end] =>
    destruct (Queues sh !! k) eqn:?
  | |- context [if ?c then _ else _] => destruct c eqn:?
  end.

Ltac run_handler :=
  unfold_handler; simpl; repeat (branch; simpl);
  rewrite ?handleQueueList_run; simpl.

(** Only [handleQueueAdd] touches [NextID]. *)
Lemma handleCallbackEvent_NextID range ev sh :
  NextID (exec (handleCallbackEvent range ev) sh) = NextID sh
  \/ NextID (exec (handleCallbackEvent range ev) sh) = GoInt.incr (NextID sh).
Proof.
  unfold exec.
  apply (handleCallbackEvent_cases range ev sh
           (fun r => NextID r.1.2 = NextID sh
                     \/ NextID r.1.2 = GoInt.incr (NextID sh))).
  - by left.
  - unfold handleQueueAdd. run_handler; [by left|by right].
  - rewrite handleQueueList_run. by left.
  - left. unfold handleQueueRemove. run_handler; done.
  - left. unfold handleQueueApprove. run_handler; done.
  - left. unfold handleQueueReview. run_handler; done.
  - left. unfold handleQueueUpdate. run_handler; done.
  - by left.
Qed.

Lemma handle_all_NextID range evs sh :
  GoInt.min_int <= NextID sh ->
  NextID sh + Z.of_nat (List.length evs) <= GoInt.max_int ->
  NextID sh <= NextID (exec (handle_all range evs) sh)
  <= NextID sh + Z.of_nat (List.length evs).
Proof.
  revert sh. induction evs as [|ev evs IH]; intros sh Hmin Hmax.
  - unfold exec. simpl. lia.
  - rewrite handle_all_cons. cbn [List.length] in *.
    destruct (handleCallbackEvent_NextID range ev sh) as [Hstep|Hstep].
    + specialize (IH (exec (handleCallbackEvent range ev) sh)).
      rewrite Hstep in IH. lia.
    + rewrite incr_no_wrap in Hstep by lia.
      specialize (IH (exec (handleCallbackEvent range ev) sh)).
      rewrite Hstep in IH. lia.
Qed.

(** The commands keep the registry invariant, as long as the counter does
    not wrap around. *)
Lemma ids_below_counter_step range ev sh :
  GoInt.min_int <= NextID sh < GoInt.max_int ->
  ids_below_counter sh ->
  ids_below_counter (exec (handleCallbackEvent range ev) sh).
Proof.
  intros Hn Hinv. unfold exec.
  apply (handleCallbackEvent_cases range ev sh
           (fun r => ids_below_counter r.1.2)).
  - done.
  - unfold handleQueueAdd. run_handler; [done|].
    intros id queue. simpl. rewrite incr_no_wrap by done.
    rewrite lookup_insert. case_decide as Hid.
    + intros [= <-]. simpl. lia.
    + intros Hq. apply Hinv in Hq. lia.
  - by rewrite handleQueueList_run.
  - unfold handleQueueRemove. run_handler; try done.
    by apply ids_below_counter_delete.
  - unfold handleQueueApprove. run_handler; try done.
    by eapply ids_below_counter_change.
  - unfold handleQueueReview. run_handler; try done.
    by eapply ids_below_counter_change.
  - unfold handleQueueUpdate. run_handler; try done.
    by eapply ids_below_counter_change.
  - done.
Qed.

Lemma ids_below_counter_run range evs sh :
  GoInt.min_int <= NextID sh ->
  NextID sh + Z.of_nat (List.length evs) <= GoInt.max_int ->
  ids_below_counter sh ->
  ids_below_counter (exec (handle_all range evs) sh).
Proof.
  revert sh. induction evs as [|ev evs IH]; intros sh Hmin Hmax Hinv; [done|].
  rewrite handle_all_cons. cbn [List.length] in Hmax.
  assert (Hstep : NextID sh <= NextID (exec (handleCallbackEvent range ev) sh)
                  <= NextID sh + 1).
  { destruct (handleCallbackEvent_NextID range ev sh) as [->| ->]; [lia|].
    rewrite incr_no_wrap by lia. lia. }
  apply IH; [lia|lia|].
  apply ids_below_counter_step; [lia|done].
Qed.

(** C2.  Take any run of the handler: messages [evs1], a [queue add], more
    messages [evs2], a second [queue add], from a state whose counter
    leaves room for them below the largest [int].  Each of the two adds
    stores its queue under the value the counter has when it runs and gives
    it that value as id; the counter never decreases along the run and
    moves past the id at each add, so the id of the second queue is
    strictly larger than the id of the first. *)
Theorem add_ids_strictly_increase range sh0 evs1 ev evs2 ev' :
  GoInt.min_int <= NextID sh0 ->
  NextID sh0 + Z.of_nat (List.length evs1 + List.length evs2) + 2
  <= GoInt.max_int ->
  (4 <= List.length (Fields (Text ev)))%nat ->
  (4 <= List.length (Fields (Text ev')))%nat ->
  let s1 := exec (handle_all range evs1) sh0 in
  let s1' := exec (handleQueueAdd ev) s1 in
  let s2 := exec (handle_all range evs2) s1' in
  let s2' := exec (handleQueueAdd ev') s2 in
  ID <$> Queues s1' !! NextID s1 = Some (NextID s1)
  /\ ID <$> Queues s2' !! NextID s2 = Some (NextID s2)
  /\ NextID sh0 <= NextID s1
  /\ NextID s1 < NextID s1'
  /\ NextID s1' <= NextID s2
  /\ NextID s2 < NextID s2'.
Proof.
  intros Hmin Hmax Hlen Hlen' s1 s1' s2 s2'.
  pose proof (handle_all_NextID range evs1 sh0 Hmin ltac:(lia)) as H1.
  fold s1 in H1.
  assert (Hs1' : NextID s1' = NextID s1 + 1).
  { subst s1'. unfold exec. rewrite (handleQueueAdd_run ev s1 Hlen). simpl.
    apply incr_no_wrap. lia. }
  pose proof (handle_all_NextID range evs2 s1' ltac:(lia) ltac:(lia)) as H2.
  fold s2 in H2.
  assert (Hs2' : NextID s2' = NextID s2 + 1).
  { subst s2'. unfold exec. rewrite (handleQueueAdd_run ev' s2 Hlen'). simpl.
    apply incr_no_wrap. lia. }
  split.
  { subst s1'. unfold exec. rewrite (handleQueueAdd_run ev s1 Hlen). simpl.
    by rewrite lookup_insert_eq. }
  split.
  { subst s2'. unfold exec. rewrite (handleQueueAdd_run ev' s2 Hlen'). simpl.
    by rewrite lookup_insert_eq. }
  lia.
Qed.

Lemma add_ids_strictly_increase_witness :
  ID <$> Queues (exec (handleQueueAdd (Sample.msg "U2" "queue add B http://b"))
                   (exec (handle_all range_listed
                            [Sample.msg "U1" "queue remove 1";
                             Sample.msg "U3" "queue list"])
                      (exec (handleQueueAdd
                               (Sample.msg "U1" "queue add A http://a @x"))
                         (exec (handle_all range_listed
                                  [Sample.msg "U1" "queue help"])
                            (NewSlackHandler "BOT"))))) !! 2
  = Some 2.
Proof.
  apply (add_ids_strictly_increase range_listed (NewSlackHandler "BOT")
           [Sample.msg "U1" "queue help"]
           (Sample.msg "U1" "queue add A http://a @x")
           [Sample.msg "U1" "queue remove 1"; Sample.msg "U3" "queue list"]
           (Sample.msg "U2" "queue add B http://b")).
  - by vm_compute.
  - by vm_compute.
  - vm_compute; lia.
  - vm_compute; lia.
Defined.

(** ** The mutex *)

Lemma well_locked_handlers range ev sh :
  well_locked false (trace (handleCallbackEvent range ev) sh) = true.
Proof.
  unfold trace.
  apply (handleCallbackEvent_cases range ev sh
           (fun r => well_locked false r.2 = true)).
  - done.
  - unfold handleQueueAdd. run_handler; done.
  - by rewrite handleQueueList_run.
  - unfold handleQueueRemove. run_handler; done.
  - unfold handleQueueApprove. run_handler; done.
  - unfold handleQueueReview. run_handler; done.
  - unfold handleQueueUpdate. run_handler; done.
  - done.
Qed.

(** C9, as the specification has it, fails: [handleQueueList] posts between
    [Lock] and the deferred [Unlock], and so does [handleQueueAdd]. *)
Lemma list_posts_under_lock :
  trace (handleQueueList range_listed (Sample.msg "U1" "queue list"))
    (NewSlackHandler "BOT")
  = [MuLock; PostMessage "C1" "No queues available."; MuUnlock]
  /\ posts_unlocked false
       (trace (handleQueueList range_listed (Sample.msg "U1" "queue list"))
          (NewSlackHandler "BOT")) = false
  /\ posts_unlocked false
       (trace (handleQueueAdd (Sample.msg "U1" "queue add A http://a @x"))
          (NewSlackHandler "BOT")) = false
  /\ ~ (forall range ev sh,
           posts_unlocked false (trace (handleCallbackEvent range ev) sh) = true).
Proof.
  split; [reflexivity|]. split; [reflexivity|]. split; [reflexivity|].
  intros Hclaim.
  specialize (Hclaim range_listed (Sample.msg "U1" "queue list")
                (NewSlackHandler "BOT")).
  vm_compute in Hclaim. discriminate.
Qed.

(** * Further properties of the commands *)

(** ** Commands that name no queue, or name it badly *)

Section MissingQueue.

Variable range : gmap Z Queue -> list Queue.
Variables (ev : MessageEvent) (sh : SlackHandler) (id : Z).
Hypothesis Hid : parseQueueID (Text ev) = inr id.
Hypothesis Hnone : Queues sh !! id = None.

Lemma handleQueueRemove_missing :
  handleQueueRemove ev sh
  = (tt, sh, [MuLock; PostMessage (Channel ev) "Queue not found."; MuUnlock]).
Proof.
  unfold handleQueueRemove. rewrite Hid. unfold_handler. simpl.
  by rewrite Hnone.
Qed.

Lemma handleQueueApprove_missing :
  handleQueueApprove range ev sh
  = (tt, sh, [MuLock; MuUnlock; PostMessage (Channel ev) "Queue not found."]).
Proof.
  destruct (parseQueueID_inr _ _ Hid) as [Hlen Hatoi].
  unfold handleQueueApprove. rewrite Hlen, Hatoi. unfold_handler. simpl.
  by rewrite Hnone.
Qed.

Lemma handleQueueReview_missing :
  handleQueueReview range ev sh
  = (tt, sh, [MuLock; MuUnlock; PostMessage (Channel ev) "Queue not found."]).
Proof.
  unfold handleQueueReview. rewrite Hid. unfold_handler. simpl.
  by rewrite Hnone.
Qed.

Lemma handleQueueUpdate_missing :
  handleQueueUpdate range ev sh
  = (tt, sh, [MuLock; MuUnlock; PostMessage (Channel ev) "Queue not found."]).
Proof.
  unfold handleQueueUpdate. rewrite Hid. unfold_handler. simpl.
  by rewrite Hnone.
Qed.

End MissingQueue.

Lemma handleQueueRemove_found ev sh id queue :
  parseQueueID (Text ev) = inr id ->
  Queues sh !! id = Some queue ->
  handleQueueRemove ev sh
  = (tt, set_Queues (delete id (Queues sh)) sh,
     [MuLock; PostMessage (Channel ev) "Queue removed."; MuUnlock]).
Proof.
  intros Hid Hqueue. unfold handleQueueRemove. rewrite Hid.
  unfold_handler. simpl. by rewrite Hqueue.
Qed.

Lemma parseQueueID_inl command err :
  parseQueueID command = inl err ->
  ((List.length (Fields command) < 3)%nat /\ err = "Usage: <command> <id>")
  \/ ((3 <= List.length (Fields command))%nat
      /\ Atoi (nth 2 (Fields command) EmptyString) = None
      /\ err = "Invalid queue ID.").
Proof.
  unfold parseQueueID.
  destruct (List.length (Fields command) <? 3)%nat eqn:Hlen.
  - intros [= <-]. left. by apply Nat.ltb_lt in Hlen.
  - apply Nat.ltb_ge in Hlen. destruct (Atoi _); [done|].
    intros [= <-]. by right.
Qed.

(** X1.  [queue remove] of a queue of the registry deletes the entry of its
    id and no other, leaves the counter alone and confirms the removal. *)
Theorem remove_deletes_entry ev sh id queue :
  parseQueueID (Text ev) = inr id ->
  Queues sh !! id = Some queue ->
  let sh' := exec (handleQueueRemove ev) sh in
  Queues sh' !! id = None
  /\ (forall id', id' <> id -> Queues sh' !! id' = Queues sh !! id')
  /\ NextID sh' = NextID sh
  /\ BotUserID sh' = BotUserID sh
  /\ posts (trace (handleQueueRemove ev) sh) = ["Queue removed."].
Proof.
  intros Hid Hqueue sh'. subst sh'. unfold exec, trace.
  rewrite (handleQueueRemove_found ev sh id queue Hid Hqueue). simpl.
  split; [apply lookup_delete_eq|].
  split; [|done]. intros id' Hne. by apply lookup_delete_ne.
Qed.

Lemma remove_deletes_entry_witness :
  parseQueueID (Text (Sample.msg "U5" "queue remove 3")) = inr 3
  /\ Queues Sample.sh !! 3 = Some Sample.bare_tags
  /\ Queues (exec (handleQueueRemove (Sample.msg "U5" "queue remove 3"))
               Sample.sh) !! 3 = None.
Proof.
  split; [reflexivity|]. split; [reflexivity|].
  apply (remove_deletes_entry (Sample.msg "U5" "queue remove 3")
           Sample.sh 3 Sample.bare_tags); reflexivity.
Defined.

(** X2.  A command that names an id the registry does not hold answers
    ["Queue not found."] and changes nothing, whichever of remove, approve,
    review and update it is. *)
Theorem missing_id_not_found range ev sh id :
  parseQueueID (Text ev) = inr id ->
  Queues sh !! id = None ->
  (exec (handleQueueRemove ev) sh = sh
   /\ posts (trace (handleQueueRemove ev) sh) = ["Queue not found."])
  /\ (exec (handleQueueApprove range ev) sh = sh
      /\ posts (trace (handleQueueApprove range ev) sh) = ["Queue not found."])
  /\ (exec (handleQueueReview range ev) sh = sh
      /\ posts (trace (handleQueueReview range ev) sh) = ["Queue not found."])
  /\ (exec (handleQueueUpdate range ev) sh = sh
      /\ posts (trace (handleQueueUpdate range ev) sh) = ["Queue not found."]).
Proof.
  intros Hid Hnone. unfold exec, trace.
  rewrite (handleQueueRemove_missing ev sh id Hid Hnone).
  rewrite (handleQueueApprove_missing range ev sh id Hid Hnone).
  rewrite (handleQueueReview_missing range ev sh id Hid Hnone).
  rewrite (handleQueueUpdate_missing range ev sh id Hid Hnone).
  done.
Qed.

Lemma missing_id_not_found_witness :
  parseQueueID (Text (Sample.msg "U5" "queue approve 9")) = inr 9
  /\ Queues Sample.sh !! 9 = None
  /\ exec (handleQueueApprove range_listed (Sample.msg "U5" "queue approve 9"))
       Sample.sh = Sample.sh
  /\ posts (trace (handleQueueApprove range_listed
                     (Sample.msg "U5" "queue approve 9")) Sample.sh)
     = ["Queue not found."].
Proof.
  split; [reflexivity|]. split; [reflexivity|].
  apply (missing_id_not_found range_listed (Sample.msg "U5" "queue approve 9")
           Sample.sh 9); reflexivity.
Defined.

(** X3.  Once a queue is removed, every later command that names its id,
    be it remove, approve, review or update, finds no queue and leaves the
    registry as the removal left it. *)
Theorem removed_id_not_found range ev0 ev sh id queue :
  parseQueueID (Text ev0) = inr id ->
  parseQueueID (Text ev) = inr id ->
  Queues sh !! id = Some queue ->
  let sh' := exec (handleQueueRemove ev0) sh in
  (exec (handleQueueRemove ev) sh' = sh'
   /\ posts (trace (handleQueueRemove ev) sh') = ["Queue not found."])
  /\ (exec (handleQueueApprove range ev) sh' = sh'
      /\ posts (trace (handleQueueApprove range ev) sh') = ["Queue not found."])
  /\ (exec (handleQueueReview range ev) sh' = sh'
      /\ posts (trace (handleQueueReview range ev) sh') = ["Queue not found."])
  /\ (exec (handleQueueUpdate range ev) sh' = sh'
      /\ posts (trace (handleQueueUpdate range ev) sh') = ["Queue not found."]).
Proof.
  intros Hid0 Hid Hqueue sh'.
  assert (Hnone : Queues sh' !! id = None).
  { subst sh'. unfold exec.
    rewrite (handleQueueRemove_found ev0 sh id queue Hid0 Hqueue). simpl.
    apply lookup_delete_eq. }
  unfold exec, trace.
  rewrite (handleQueueRemove_missing ev sh' id Hid Hnone).
  rewrite (handleQueueApprove_missing range ev sh' id Hid Hnone).
  rewrite (handleQueueReview_missing range ev sh' id Hid Hnone).
  rewrite (handleQueueUpdate_missing range ev sh' id Hid Hnone).
  done.
Qed.

Lemma removed_id_not_found_witness :
  parseQueueID (Text (Sample.msg "U5" "queue remove 1")) = inr 1
  /\ parseQueueID (Text (Sample.msg "U1" "queue approve 1")) = inr 1
  /\ Queues Sample.sh !! 1 = Some Sample.fix_bug
  /\ posts (trace (handleQueueApprove range_listed
                     (Sample.msg "U1" "queue approve 1"))
              (exec (handleQueueRemove (Sample.msg "U5" "queue remove 1"))
                 Sample.sh))
     = ["Queue not found."].
Proof.
  split; [reflexivity|]. split; [reflexivity|]. split; [reflexivity|].
  apply (removed_id_not_found range_listed
           (Sample.msg "U5" "queue remove 1")
           (Sample.msg "U1" "queue approve 1") Sample.sh 1 Sample.fix_bug);
    reflexivity.
Defined.

(** X4.  When the id argument of a command is missing or is no integer,
    remove, review and update answer with the text of the parse error, and
    approve with its own usage line or the invalid-id notice; none of them
    takes the mutex or changes the handler state. *)
Theorem malformed_command_untouched range ev sh err :
  parseQueueID (Text ev) = inl err ->
  (err = "Usage: <command> <id>" \/ err = "Invalid queue ID.")
  /\ handleQueueRemove ev sh = (tt, sh, [PostMessage (Channel ev) err])
  /\ handleQueueReview range ev sh = (tt, sh, [PostMessage (Channel ev) err])
  /\ handleQueueUpdate range ev sh = (tt, sh, [PostMessage (Channel ev) err])
  /\ handleQueueApprove range ev sh
     = (tt, sh,
        [PostMessage (Channel ev)
           (if (List.length (Fields (Text ev)) <? 3)%nat
            then "Usage: queue approve <id>" else "Invalid queue ID.")]).
Proof.
  intros Herr.
  split; [destruct (parseQueueID_inl _ _ Herr) as [[_ ->]|(_ & _ & ->)]; auto|].
  unfold handleQueueRemove, handleQueueReview, handleQueueUpdate.
  rewrite Herr. do 3 (split; [done|]).
  unfold handleQueueApprove.
  destruct (parseQueueID_inl _ _ Herr) as [[Hlen _]|(Hlen & Hatoi & _)].
  - apply Nat.ltb_lt in Hlen. by rewrite Hlen.
  - apply Nat.ltb_ge in Hlen. by rewrite Hlen, Hatoi.
Qed.

Lemma malformed_command_untouched_witness :
  parseQueueID (Text (Sample.msg "U5" "queue remove one")) = inl "Invalid queue ID."
  /\ handleQueueRemove (Sample.msg "U5" "queue remove one") Sample.sh
     = (tt, Sample.sh, [PostMessage "C1" "Invalid queue ID."]).
Proof.
  split; [reflexivity|].
  apply (malformed_command_untouched range_listed
           (Sample.msg "U5" "queue remove one") Sample.sh "Invalid queue ID.").
  reflexivity.
Defined.

(** X5.  [queue add] needs four tokens, the two command words, a title and
    a link: with fewer it posts its usage line without taking the mutex,
    stores nothing and leaves the counter where it is. *)
Theorem add_needs_title_and_link ev sh :
  (List.length (Fields (Text ev)) < 4)%nat ->
  exec (handleQueueAdd ev) sh = sh
  /\ trace (handleQueueAdd ev) sh
     = [PostMessage (Channel ev) "Usage: queue add <title> <MR link> @tag @tag"].
Proof.
  intros Hlen. unfold exec, trace. by rewrite (handleQueueAdd_usage ev sh Hlen).
Qed.

Lemma add_needs_title_and_link_witness :
  (List.length (Fields (Text (Sample.msg "U5" "queue add Title"))) < 4)%nat
  /\ exec (handleQueueAdd (Sample.msg "U5" "queue add Title")) Sample.sh
     = Sample.sh.
Proof.
  split; [vm_compute; lia|].
  apply (add_needs_title_and_link (Sample.msg "U5" "queue add Title") Sample.sh).
  vm_compute; lia.
Defined.

(** ** What the dispatcher lets through *)

Lemma prefix_trans (a b c : string) :
  String.prefix a b = true -> String.prefix b c = true ->
  String.prefix a c = true.
Proof.
  revert a b. induction c as [|x c IH]; intros a b Hab Hbc.
  - destruct b; [|done]. by destruct a.
  - destruct a as [|y a]; [done|]. destruct b as [|z b]; [done|].
    simpl in *. destruct (ascii_dec y z) as [->|]; [|done].
    destruct (ascii_dec z x) as [->|]; [|done]. by eapply IH.
Qed.

Lemma HasPrefix_queue (s verb : string) :
  HasPrefix s "queue " = false ->
  String.prefix "queue " verb = true ->
  HasPrefix s verb = false.
Proof.
  unfold HasPrefix. intros Hno Hverb.
  destruct (String.prefix verb s) eqn:Hs; [|done].
  by rewrite (prefix_trans _ _ _ Hverb Hs) in Hno.
Qed.

(** X6.  A message sent by the bot itself, or one that carries a subtype,
    is dropped before its text is looked at: nothing is posted, the mutex
    is not taken, the registry is unchanged. *)
Theorem own_messages_ignored range ev sh :
  User ev = BotUserID sh \/ SubType ev <> EmptyString ->
  handleCallbackEvent range ev sh = (tt, sh, []).
Proof.
  intros Hskip. unfold handleCallbackEvent, bind, get.
  replace (String.eqb (User ev) (BotUserID sh)
           || negb (String.eqb (SubType ev) EmptyString)) with true; [done|].
  symmetry. apply orb_true_iff. destruct Hskip as [Hbot|Hsub].
  - left. by apply String.eqb_eq.
  - right. apply negb_true_iff. by apply String.eqb_neq.
Qed.

Lemma own_messages_ignored_witness :
  User (Sample.msg "BOT" "queue remove 1") = BotUserID Sample.sh
  /\ handleCallbackEvent range_listed (Sample.msg "BOT" "queue remove 1")
       Sample.sh = (tt, Sample.sh, []).
Proof.
  split; [reflexivity|].
  apply (own_messages_ignored range_listed (Sample.msg "BOT" "queue remove 1")
           Sample.sh).
  left. reflexivity.
Defined.

(** X7.  The handler reacts only to messages whose text, once the
    surrounding white space is trimmed, starts with ["queue "]: on any
    other text it posts nothing and changes nothing. *)
Theorem non_queue_text_ignored range ev sh :
  HasPrefix (TrimSpace (Text ev)) "queue " = false ->
  handleCallbackEvent range ev sh = (tt, sh, []).
Proof.
  intros Hno. unfold handleCallbackEvent, bind, get.
  destruct (_ || _); [done|].
  rewrite !(HasPrefix_queue _ _ Hno) by reflexivity. done.
Qed.

Lemma non_queue_text_ignored_witness :
  HasPrefix (TrimSpace (Text (Sample.msg "U1" "  please queue remove 1 ")))
    "queue " = false
  /\ handleCallbackEvent range_listed
       (Sample.msg "U1" "  please queue remove 1 ") Sample.sh
     = (tt, Sample.sh, []).
Proof.
  split; [reflexivity|].
  apply (non_queue_text_ignored range_listed
           (Sample.msg "U1" "  please queue remove 1 ") Sample.sh).
  reflexivity.
Defined.

(** ** The registry along a run *)

Lemma handleCallbackEvent_NextID_bounds range ev sh :
  GoInt.min_int <= NextID sh < GoInt.max_int ->
  NextID sh <= NextID (exec (handleCallbackEvent range ev) sh) <= NextID sh + 1.
Proof.
  intros Hn.
  destruct (handleCallbackEvent_NextID range ev sh) as [->| ->]; [lia|].
  rewrite incr_no_wrap by lia. lia.
Qed.

(** The commands store queues under ids that are in use or at the counter. *)
Lemma ids_at_least_step range ev sh (lo : Z) :
  lo <= NextID sh ->
  (forall id queue, Queues sh !! id = Some queue -> lo <= id) ->
  forall id queue,
    Queues (exec (handleCallbackEvent range ev) sh) !! id = Some queue ->
    lo <= id.
Proof.
  intros Hlo Hinv. unfold exec.
  apply (handleCallbackEvent_cases range ev sh
           (fun r => forall id queue, Queues r.1.2 !! id = Some queue -> lo <= id)).
  - done.
  - unfold handleQueueAdd. run_handler; [done|].
    intros id queue. rewrite lookup_insert. case_decide; [lia|]. apply Hinv.
  - by rewrite handleQueueList_run.
  - unfold handleQueueRemove. run_handler; try done.
    intros id queue. rewrite lookup_delete. case_decide; [done|]. apply Hinv.
  - unfold handleQueueApprove. run_handler; try done.
    intros id queue. rewrite lookup_insert. case_decide; [|apply Hinv].
    subst. intros _. by eapply Hinv.
  - unfold handleQueueReview. run_handler; try done.
    intros id queue. rewrite lookup_insert. case_decide; [|apply Hinv].
    subst. intros _. by eapply Hinv.
  - unfold handleQueueUpdate. run_handler; try done.
    intros id queue. rewrite lookup_insert. case_decide; [|apply Hinv].
    subst. intros _. by eapply Hinv.
  - done.
Qed.

Lemma ids_at_least_run range evs sh (lo : Z) :
  GoInt.min_int <= NextID sh ->
  NextID sh + Z.of_nat (List.length evs) <= GoInt.max_int ->
  lo <= NextID sh ->
  (forall id queue, Queues sh !! id = Some queue -> lo <= id) ->
  forall id queue,
    Queues (exec (handle_all range evs) sh) !! id = Some queue -> lo <= id.
Proof.
  revert sh. induction evs as [|ev evs IH]; intros sh Hmin Hmax Hlo Hinv; [done|].
  rewrite handle_all_cons. cbn [List.length] in Hmax.
  pose proof (handleCallbackEvent_NextID_bounds range ev sh ltac:(lia)).
  apply IH; [lia|lia|lia|]. by apply ids_at_least_step.
Qed.

(** X8.  In every state the handler reaches from [NewSlackHandler] by fewer
    messages than there are positive [int]s, each queue is stored under its
    own id, the ids are at least 1 and below the counter, and the counter
    has moved by at most one for each message. *)
Theorem registry_invariant_run range bot evs :
  1 + Z.of_nat (List.length evs) <= GoInt.max_int ->
  let sh := exec (handle_all range evs) (NewSlackHandler bot) in
  1 <= NextID sh <= 1 + Z.of_nat (List.length evs)
  /\ forall id queue,
       Queues sh !! id = Some queue -> ID queue = id /\ 1 <= id < NextID sh.
Proof.
  intros Hmax sh.
  assert (Hmin : GoInt.min_int <= NextID (NewSlackHandler bot)) by done.
  split.
  - apply (handle_all_NextID range evs (NewSlackHandler bot) Hmin Hmax).
  - intros id queue Hq.
    destruct (ids_below_counter_run range evs (NewSlackHandler bot) Hmin Hmax
                (ids_below_counter_init bot) id queue Hq) as [Hid Hlt].
    split; [done|]. split; [|done].
    apply (ids_at_least_run range evs (NewSlackHandler bot) 1 Hmin Hmax
             ltac:(done)) with (queue := queue); [|done].
    intros id' q'. simpl. by rewrite lookup_empty.
Qed.

Lemma registry_invariant_run_witness :
  1 + Z.of_nat (List.length [Sample.msg "U1" "queue add A http://a @x";
                             Sample.msg "U2" "queue add B http://b";
                             Sample.msg "U1" "queue remove 1"])
  <= GoInt.max_int
  /\ 1 <= NextID (exec (handle_all range_listed
                          [Sample.msg "U1" "queue add A http://a @x";
                           Sample.msg "U2" "queue add B http://b";
                           Sample.msg "U1" "queue remove 1"])
                    (NewSlackHandler "BOT")) <= 1 + 3.
Proof.
  split; [by vm_compute|].
  apply (registry_invariant_run range_listed "BOT"
           [Sample.msg "U1" "queue add A http://a @x";
            Sample.msg "U2" "queue add B http://b";
            Sample.msg "U1" "queue remove 1"]).
  by vm_compute.
Defined.

(** An id below the counter that holds no queue gets none. *)
Lemma free_id_step range ev sh id :
  GoInt.min_int <= NextID sh < GoInt.max_int ->
  id < NextID sh ->
  Queues sh !! id = None ->
  Queues (exec (handleCallbackEvent range ev) sh) !! id = None.
Proof.
  intros Hn Hid Hnone. unfold exec.
  apply (handleCallbackEvent_cases range ev sh
           (fun r => Queues r.1.2 !! id = None)).
  - done.
  - unfold handleQueueAdd. run_handler; [done|].
    rewrite lookup_insert_ne by lia. done.
  - by rewrite handleQueueList_run.
  - unfold handleQueueRemove. run_handler; try done.
    rewrite lookup_delete. by case_decide.
  - unfold handleQueueApprove. run_handler; try done.
    rewrite lookup_insert_ne; [done|]. intros ->. congruence.
  - unfold handleQueueReview. run_handler; try done.
    rewrite lookup_insert_ne; [done|]. intros ->. congruence.
  - unfold handleQueueUpdate. run_handler; try done.
    rewrite lookup_insert_ne; [done|]. intros ->. congruence.
  - done.
Qed.

Lemma free_id_run range evs sh id :
  GoInt.min_int <= NextID sh ->
  NextID sh + Z.of_nat (List.length evs) <= GoInt.max_int ->
  id < NextID sh ->
  Queues sh !! id = None ->
  Queues (exec (handle_all range evs) sh) !! id = None.
Proof.
  revert sh. induction evs as [|ev evs IH]; intros sh Hmin Hmax Hid Hnone;
    [done|].
  rewrite handle_all_cons. cbn [List.length] in Hmax.
  pose proof (handleCallbackEvent_NextID_bounds range ev sh ltac:(lia)).
  apply IH; [lia|lia|lia|]. apply free_id_step; [lia|done|done].
Qed.

(** X9.  Ids are not reused: once a queue is removed, no run of further
    messages puts a queue under its id again, as long as the counter does
    not wrap around (the registry invariant places the id below the
    counter). *)
Theorem removed_id_never_reused range ev0 evs sh id queue :
  GoInt.min_int <= NextID sh ->
  NextID sh + Z.of_nat (List.length evs) <= GoInt.max_int ->
  ids_below_counter sh ->
  parseQueueID (Text ev0) = inr id ->
  Queues sh !! id = Some queue ->
  Queues (exec (handle_all range evs) (exec (handleQueueRemove ev0) sh)) !! id
  = None.
Proof.
  intros Hmin Hmax Hinv Hid Hq.
  destruct (Hinv id queue Hq) as [_ Hlt].
  unfold exec at 2.
  rewrite (handleQueueRemove_found ev0 sh id queue Hid Hq). cbn [fst snd].
  apply free_id_run; simpl; [done|done|done|].
  apply lookup_delete_eq.
Qed.

Lemma removed_id_never_reused_witness :
  ids_below_counter Sample.sh
  /\ parseQueueID (Text (Sample.msg "U1" "queue remove 1")) = inr 1
  /\ Queues Sample.sh !! 1 = Some Sample.fix_bug
  /\ Queues (exec (handle_all range_listed
                     [Sample.msg "U1" "queue add A http://a @x";
                      Sample.msg "U2" "queue add B http://b"])
               (exec (handleQueueRemove (Sample.msg "U1" "queue remove 1"))
                  Sample.sh)) !! 1 = None.
Proof.
  assert (Hinv : ids_below_counter Sample.sh).
  { change (map_Forall (fun id queue => ID queue = id /\ id < NextID Sample.sh)
              (Queues Sample.sh)).
    compute_done. }
  split; [exact Hinv|]. split; [reflexivity|]. split; [reflexivity|].
  apply (removed_id_never_reused range_listed
           (Sample.msg "U1" "queue remove 1")
           [Sample.msg "U1" "queue add A http://a @x";
            Sample.msg "U2" "queue add B http://b"]
           Sample.sh 1 Sample.fix_bug).
  - by vm_compute.
  - by vm_compute.
  - exact Hinv.
  - reflexivity.
  - reflexivity.
Defined.

(** ** What a command may change in a queue *)

Lemma remove_index_sublist (i : Z) (tags : list string) :
  sublist (remove_index i tags) tags.
Proof.
  unfold remove_index.
  rewrite <- (take_drop (Z.to_nat i) tags) at 3.
  apply sublist_app; [done|].
  replace (Z.to_nat (i + 1)) with (Z.to_nat i + (Z.to_nat (i + 1) - Z.to_nat i))%nat
    by lia.
  rewrite <- drop_drop. apply sublist_drop.
Qed.

Lemma aged_refl queue : aged queue queue.
Proof. by repeat split. Qed.

Lemma aged_trans q1 q2 q3 : aged q1 q2 -> aged q2 q3 -> aged q1 q3.
Proof.
  intros (? & ? & ? & ? & ?) (? & ? & ? & ? & ?).
  repeat split; try congruence. by etrans.
Qed.

Lemma aged_step range ev sh id queue queue' :
  ids_below_counter sh ->
  Queues sh !! id = Some queue ->
  Queues (exec (handleCallbackEvent range ev) sh) !! id = Some queue' ->
  aged queue queue'.
Proof.
  intros Hinv Hq. unfold exec.
  assert (Hsame : Queues sh !! id = Some queue' -> aged queue queue').
  { intros Hq'. rewrite Hq in Hq'. injection Hq' as <-. apply aged_refl. }
  apply (handleCallbackEvent_cases range ev sh
           (fun r => Queues r.1.2 !! id = Some queue' -> aged queue queue')).
  - done.
  - unfold handleQueueAdd. run_handler; [done|].
    destruct (Hinv id queue Hq) as [_ Hlt].
    by rewrite lookup_insert_ne by lia.
  - by rewrite handleQueueList_run.
  - unfold handleQueueRemove. run_handler; try done.
    rewrite lookup_delete. by case_decide.
  - unfold handleQueueApprove. run_handler; try done.
    rewrite lookup_insert. case_decide as Hz; [|done].
    subst. intros [= <-]. simplify_eq. repeat split; simpl; try done.
    apply remove_index_sublist.
  - unfold handleQueueReview. run_handler; try done.
    rewrite lookup_insert. case_decide as Hz; [|done].
    subst. intros [= <-]. simplify_eq. by repeat split.
  - unfold handleQueueUpdate. run_handler; try done.
    rewrite lookup_insert. case_decide as Hz; [|done].
    subst. intros [= <-]. simplify_eq. by repeat split.
  - done.
Qed.

(** X10.  Whatever messages arrive, a queue that is in the registry before
    and after them has kept its id, its title, its link and its owner, and
    its tags are tags it already had, in their order: no command adds a
    tag or edits a queue.  (The registry invariant and the room below the
    largest [int] rule out a second queue under the same id.) *)
Theorem queue_only_loses_tags range evs sh id queue queue' :
  GoInt.min_int <= NextID sh ->
  NextID sh + Z.of_nat (List.length evs) <= GoInt.max_int ->
  ids_below_counter sh ->
  Queues sh !! id = Some queue ->
  Queues (exec (handle_all range evs) sh) !! id = Some queue' ->
  ID queue' = ID queue
  /\ Title queue' = Title queue
  /\ MRLink queue' = MRLink queue
  /\ Owner queue' = Owner queue
  /\ sublist (Tags queue') (Tags queue).
Proof.
  revert sh queue.
  induction evs as [|ev evs IH]; intros sh queue Hmin Hmax Hinv Hq Hq'.
  - unfold exec in Hq'. simpl in Hq'. rewrite Hq in Hq'. injection Hq' as <-.
    apply aged_refl.
  - rewrite handle_all_cons in Hq'. cbn [List.length] in Hmax.
    pose proof (handleCallbackEvent_NextID_bounds range ev sh ltac:(lia)) as Hn.
    destruct (Queues (exec (handleCallbackEvent range ev) sh) !! id)
      as [q1|] eqn:Hq1.
    + apply (aged_trans queue q1 queue').
      * by eapply aged_step.
      * apply (IH (exec (handleCallbackEvent range ev) sh) q1); try done;
          [lia|lia|].
        apply ids_below_counter_step; [lia|done].
    + destruct (Hinv id queue Hq) as [_ Hlt].
      rewrite (free_id_run range evs _ id) in Hq'; [done|lia|lia|lia|done].
Qed.

Lemma ids_below_counter_Sample : ids_below_counter Sample.sh.
Proof.
  change (map_Forall (fun id queue => ID queue = id /\ id < NextID Sample.sh)
            (Queues Sample.sh)).
  compute_done.
Qed.

Lemma queue_only_loses_tags_witness :
  ids_below_counter Sample.sh
  /\ Queues Sample.sh !! 1 = Some Sample.fix_bug
  /\ Queues (exec (handle_all range_listed
                     [Sample.msg "U1" "queue approve 1";
                      Sample.msg "U7" "queue review 1";
                      Sample.msg "U7" "queue add C http://c <@U1>"])
               Sample.sh) !! 1
     = Some {| ID := 1; Title := "Fix"; MRLink := "http://x";
               Tags := ["<@U2>"; "<@U3>"; "<@U1>"];
               Owner := "U9"; InReviewState := true |}
  /\ sublist ["<@U2>"; "<@U3>"; "<@U1>"] (Tags Sample.fix_bug).
Proof.
  split; [apply ids_below_counter_Sample|]. split; [reflexivity|].
  split; [reflexivity|].
  apply (queue_only_loses_tags range_listed
           [Sample.msg "U1" "queue approve 1";
            Sample.msg "U7" "queue review 1";
            Sample.msg "U7" "queue add C http://c <@U1>"]
           Sample.sh 1 Sample.fix_bug
           {| ID := 1; Title := "Fix"; MRLink := "http://x";
              Tags := ["<@U2>"; "<@U3>"; "<@U1>"];
              Owner := "U9"; InReviewState := true |}).
  - by vm_compute.
  - by vm_compute.
  - apply ids_below_counter_Sample.
  - reflexivity.
  - reflexivity.
Defined.

(** X11.  Only [queue remove] takes a queue out of the registry and only
    [queue add] puts one in: list, approve, review, update and help leave
    the set of ids as it is, and add keeps every id that is in use. *)
Theorem ids_kept_by_other_commands range ev sh :
  dom (Queues (exec (handleQueueList range ev) sh)) = dom (Queues sh)
  /\ dom (Queues (exec (handleQueueApprove range ev) sh)) = dom (Queues sh)
  /\ dom (Queues (exec (handleQueueReview range ev) sh)) = dom (Queues sh)
  /\ dom (Queues (exec (handleQueueUpdate range ev) sh)) = dom (Queues sh)
  /\ dom (Queues (exec (handleQueueHelp ev) sh)) = dom (Queues sh)
  /\ dom (Queues sh) ⊆ dom (Queues (exec (handleQueueAdd ev) sh)).
Proof.
  unfold exec.
  split; [by rewrite handleQueueList_run|].
  split.
  { unfold handleQueueApprove. run_handler; try done.
    by apply dom_insert_lookup_L. }
  split.
  { unfold handleQueueReview. run_handler; try done.
    by apply dom_insert_lookup_L. }
  split.
  { unfold handleQueueUpdate. run_handler; try done.
    by apply dom_insert_lookup_L. }
  split; [done|].
  unfold handleQueueAdd. run_handler; [done|].
  rewrite dom_insert_L. set_solver.
Qed.

(** X12.  [queue review] and [queue update] are idempotent: a second
    message that names the same id leaves the registry as the first left
    it, whoever sends it and whether or not the id is in use. *)
Theorem review_update_idempotent range ev1 ev2 sh id :
  parseQueueID (Text ev1) = inr id ->
  parseQueueID (Text ev2) = inr id ->
  exec (handleQueueReview range ev2) (exec (handleQueueReview range ev1) sh)
  = exec (handleQueueReview range ev1) sh
  /\ exec (handleQueueUpdate range ev2) (exec (handleQueueUpdate range ev1) sh)
     = exec (handleQueueUpdate range ev1) sh.
Proof.
  intros Hid1 Hid2. unfold exec.
  destruct (Queues sh !! id) as [queue|] eqn:Hq.
  - rewrite (handleQueueReview_run range ev1 sh id queue Hid1 Hq).
    rewrite (handleQueueUpdate_run range ev1 sh id queue Hid1 Hq).
    cbn [fst snd].
    rewrite (handleQueueReview_run range ev2 _ id (set_InReviewState true queue)
               Hid2 (lookup_insert_eq _ _ _)).
    rewrite (handleQueueUpdate_run range ev2 _ id (set_InReviewState false queue)
               Hid2 (lookup_insert_eq _ _ _)).
    cbn [fst snd]. unfold set_Queues. cbn [Queues NextID BotUserID].
    by rewrite !insert_insert_eq.
  - rewrite (handleQueueReview_missing range ev1 sh id Hid1 Hq).
    rewrite (handleQueueUpdate_missing range ev1 sh id Hid1 Hq).
    cbn [fst snd].
    rewrite (handleQueueReview_missing range ev2 sh id Hid2 Hq).
    by rewrite (handleQueueUpdate_missing range ev2 sh id Hid2 Hq).
Qed.

Lemma review_update_idempotent_witness :
  parseQueueID (Text (Sample.msg "U1" "queue review 3")) = inr 3
  /\ parseQueueID (Text (Sample.msg "U8" "queue review 3 please")) = inr 3
  /\ exec (handleQueueReview range_listed (Sample.msg "U8" "queue review 3 please"))
       (exec (handleQueueReview range_listed (Sample.msg "U1" "queue review 3"))
          Sample.sh)
     = exec (handleQueueReview range_listed (Sample.msg "U1" "queue review 3"))
         Sample.sh.
Proof.
  split; [reflexivity|]. split; [reflexivity|].
  apply (review_update_idempotent range_listed
           (Sample.msg "U1" "queue review 3")
           (Sample.msg "U8" "queue review 3 please") Sample.sh 3); reflexivity.
Defined.

(** ** The mutex along a run *)

Lemma well_locked_app (held : bool) (t1 t2 : list Event) :
  well_locked held t1 = true ->
  well_locked false t2 = true ->
  well_locked held (t1 ++ t2) = true.
Proof.
  revert held. induction t1 as [|e t1 IH]; intros held H1 H2.
  - simpl in *. by destruct held.
  - destruct e; simpl in *.
    + apply andb_true_iff in H1 as [-> H1]. by apply IH.
    + apply andb_true_iff in H1 as [-> H1]. by apply IH.
    + by apply IH.
Qed.

Lemma handle_all_trace_cons range ev evs sh :
  trace (handle_all range (ev :: evs)) sh
  = trace (handleCallbackEvent range ev) sh
    ++ trace (handle_all range evs) (exec (handleCallbackEvent range ev) sh).
Proof.
  unfold trace, exec. simpl. unfold bind.
  destruct (handleCallbackEvent range ev sh) as [[[] sh1] t1]. simpl.
  by destruct (handle_all range evs sh1) as [[[] sh2] t2].
Qed.

(** X13.  Over any run of messages the handler uses its mutex correctly
    when the messages are handled one after the other: it never locks the
    mutex it holds, never unlocks the mutex it does not hold, and holds
    nothing when the run ends. *)
Theorem runs_well_locked range evs sh :
  well_locked false (trace (handle_all range evs) sh) = true.
Proof.
  revert sh. induction evs as [|ev evs IH]; intros sh; [done|].
  rewrite handle_all_trace_cons.
  apply well_locked_app; [apply well_locked_handlers|apply IH].
Qed.

(** X14.  When the id is in use, review, update and remove post every one
    of their messages with the mutex held: review and update their
    confirmation and the listing that follows, remove its confirmation. *)
Theorem replies_posted_under_lock range ev sh id queue :
  parseQueueID (Text ev) = inr id ->
  Queues sh !! id = Some queue ->
  posts_under_lock false (trace (handleQueueReview range ev) sh)
  = ["Queue " +:+ pretty (ID queue) +:+ " is now in review.";
     list_msg range (exec (handleQueueReview range ev) sh)]
  /\ posts_under_lock false (trace (handleQueueUpdate range ev) sh)
     = ["Queue " +:+ pretty (ID queue)
        +:+ " has been updated and is no longer in review.";
        list_msg range (exec (handleQueueUpdate range ev) sh)]
  /\ posts_under_lock false (trace (handleQueueRemove ev) sh)
     = ["Queue removed."].
Proof.
  intros Hid Hq. unfold trace, exec.
  rewrite (handleQueueReview_run range ev sh id queue Hid Hq).
  rewrite (handleQueueUpdate_run range ev sh id queue Hid Hq).
  by rewrite (handleQueueRemove_found ev sh id queue Hid Hq).
Qed.

Lemma replies_posted_under_lock_witness :
  parseQueueID (Text (Sample.msg "U1" "queue remove 2")) = inr 2
  /\ Queues Sample.sh !! 2 = Some Sample.done_queue
  /\ posts_under_lock false
       (trace (handleQueueRemove (Sample.msg "U1" "queue remove 2")) Sample.sh)
     = ["Queue removed."].
Proof.
  split; [reflexivity|]. split; [reflexivity|].
  apply (replies_posted_under_lock range_listed
           (Sample.msg "U1" "queue remove 2") Sample.sh 2 Sample.done_queue);
    reflexivity.
Defined.

(** ** Approvals, one after the other *)

(** X15.  When the tags of a queue are the mentions of the users who send
    the approvals, in any order and with repetitions counted, the run of
    approvals removes them all: the queue is left in the registry with an
    empty tag list and its id, title, link, owner and review flag as they
    were, and nothing else changes. *)
Theorem approvals_by_all_tagged_empty_tags range evs sh id queue :
  Queues sh !! id = Some queue ->
  Forall (fun ev => parseQueueID (Text ev) = inr id) evs ->
  Tags queue ≡ₚ (fun ev => "<@" +:+ User ev +:+ ">") <$> evs ->
  let sh' := exec (approve_all range evs) sh in
  Queues sh' !! id
  = Some {| ID := ID queue; Title := Title queue; MRLink := MRLink queue;
            Tags := []; Owner := Owner queue;
            InReviewState := InReviewState queue |}
  /\ (forall id', id' <> id -> Queues sh' !! id' = Queues sh !! id')
  /\ NextID sh' = NextID sh
  /\ BotUserID sh' = BotUserID sh.
Proof.
  intros Hq Hids. revert sh queue Hq.
  induction Hids as [|ev evs Hid _ IH]; intros sh queue Hq Hperm sh'.
  - subst sh'. unfold exec. simpl. apply Permutation_nil_r in Hperm.
    rewrite Hq. split; [|done]. f_equal. destruct queue; simpl in *.
    by subst.
  - assert (Hin : mention_of (User ev) ∈ Tags queue).
    { rewrite Hperm. apply list_elem_of_here. }
    destruct (first_occurrence _ _ Hin) as (pre & post & Htags & Hpre).
    assert (Hrest : pre ++ post ≡ₚ (fun ev => "<@" +:+ User ev +:+ ">") <$> evs).
    { apply (Permutation_cons_inv (a := mention_of (User ev))).
      etrans; [apply Permutation_middle|]. rewrite <- Htags. exact Hperm. }
    subst sh'. unfold exec. simpl. unfold bind.
    rewrite (handleQueueApprove_found range ev sh id queue Hid Hq pre post
               Htags Hpre).
    specialize (IH (set_Queues (<[id := set_Tags (pre ++ post) queue]> (Queues sh)) sh)
                  (set_Tags (pre ++ post) queue)
                  (lookup_insert_eq _ _ _) Hrest).
    unfold exec in IH.
    destruct (approve_all range evs _) as [[[] sh2] t2]. simpl in *.
    destruct IH as (Hq2 & Hother & Hnext & Hbot).
    split; [exact Hq2|]. split; [|done].
    intros id' Hne. rewrite (Hother id' Hne). by apply lookup_insert_ne.
Qed.

Lemma approvals_by_all_tagged_empty_tags_witness :
  Queues Sample.sh !! 1 = Some Sample.fix_bug
  /\ Tags Sample.fix_bug = ["<@U2>"; "<@U1>"; "<@U3>"; "<@U1>"]
  /\ Queues (exec (approve_all range_listed
                     [Sample.msg "U1" "queue approve 1";
                      Sample.msg "U3" "queue approve 1";
                      Sample.msg "U1" "queue approve 1";
                      Sample.msg "U2" "queue approve 1"]) Sample.sh) !! 1
     = Some {| ID := 1; Title := "Fix"; MRLink := "http://x"; Tags := [];
               Owner := "U9"; InReviewState := false |}.
Proof.
  split; [reflexivity|]. split; [reflexivity|].
  apply (approvals_by_all_tagged_empty_tags range_listed
           [Sample.msg "U1" "queue approve 1";
            Sample.msg "U3" "queue approve 1";
            Sample.msg "U1" "queue approve 1";
            Sample.msg "U2" "queue approve 1"] Sample.sh 1 Sample.fix_bug).
  - reflexivity.
  - repeat constructor.
  - compute_done.
Defined.

(** ** The listing after a command *)

Lemma listing_shows range sh id queue :
  (forall m, range m ≡ₚ (map_to_list m).*2) ->
  Queues sh !! id = Some queue ->
  Contains (list_msg range sh) (queue_line queue) = true.
Proof.
  intros Hperm Hq. unfold list_msg.
  destruct (size (Queues sh) =? 0)%nat eqn:Hsize.
  { apply Nat.eqb_eq, map_size_empty_iff in Hsize.
    by rewrite Hsize, lookup_empty in Hq. }
  rewrite queueList_lines. apply lines_Contains. rewrite Hperm.
  apply list_elem_of_fmap. exists (id, queue). split; [done|].
  by apply elem_of_map_to_list.
Qed.

(** X16.  The queue a [queue add] has just stored is in the next listing,
    on a line that starts with its id: the id the confirmation leaves out
    is to be read there. *)
Theorem added_queue_is_listed range ev ev' sh :
  (forall m, range m ≡ₚ (map_to_list m).*2) ->
  (4 <= List.length (Fields (Text ev)))%nat ->
  exists msg,
    posts (trace (handleQueueList range ev') (exec (handleQueueAdd ev) sh))
    = [msg]
    /\ Contains msg
         ("ID: " +:+ pretty (NextID sh)
          +:+ " | Title: " +:+ nth 2 (Fields (Text ev)) EmptyString
          +:+ " | MR: " +:+ nth 3 (Fields (Text ev)) EmptyString
          +:+ " | Tags: " +:+ Join (drop 4 (Fields (Text ev))) ", " +:+ LF)
       = true.
Proof.
  intros Hperm Hlen. unfold trace. rewrite handleQueueList_run. simpl.
  eexists. split; [reflexivity|].
  apply (listing_shows range _ (NextID sh)
           {| ID := NextID sh;
              Title := nth 2 (Fields (Text ev)) EmptyString;
              MRLink := nth 3 (Fields (Text ev)) EmptyString;
              Tags := drop 4 (Fields (Text ev));
              Owner := User ev;
              InReviewState := false |} Hperm).
  unfold exec. rewrite (handleQueueAdd_run ev sh Hlen). simpl.
  apply lookup_insert_eq.
Qed.

Lemma added_queue_is_listed_witness :
  (forall m, range_listed m ≡ₚ (map_to_list m).*2)
  /\ (4 <= List.length (Fields (Text (Sample.msg "U6" "queue add New http://n <@U1>"))))%nat
  /\ exists msg,
       posts (trace (handleQueueList range_listed (Sample.msg "U6" "queue list"))
                (exec (handleQueueAdd (Sample.msg "U6" "queue add New http://n <@U1>"))
                   Sample.sh)) = [msg]
       /\ Contains msg
            ("ID: 5 | Title: New | MR: http://n | Tags: <@U1>" +:+ LF) = true.
Proof.
  split; [intros m; reflexivity|]. split; [vm_compute; lia|].
  apply (added_queue_is_listed range_listed
           (Sample.msg "U6" "queue add New http://n <@U1>")
           (Sample.msg "U6" "queue list") Sample.sh).
  - intros m; reflexivity.
  - vm_compute; lia.
Defined.

(** ** Commands written with plain tokens *)

Lemma space_width_plain (c : ascii) (r : string) :
  plain_byte c = true -> space_width (String c r) = 0%nat.
Proof.
  unfold plain_byte, space_width. cbv zeta.
  intros [Hlt Hsp%negb_true_iff]%andb_true_iff.
  apply Z.ltb_lt in Hlt. rewrite Hsp.
  destruct r as [|c2 r2]; [done|].
  replace (byte_of c =? 194) with false by (symmetry; apply Z.eqb_neq; lia).
  simpl. destruct r2 as [|c3 r3]; [done|].
  replace (byte_of c =? 225) with false by (symmetry; apply Z.eqb_neq; lia).
  replace (byte_of c =? 226) with false by (symmetry; apply Z.eqb_neq; lia).
  replace (byte_of c =? 227) with false by (symmetry; apply Z.eqb_neq; lia).
  done.
Qed.

Lemma Fields_go_plain (w cur rest : string) :
  plain w = true ->
  Fields_go 0 cur (w +:+ rest) = Fields_go 0 (cur +:+ w) rest.
Proof.
  revert cur. induction w as [|c w IH]; intros cur Hw.
  - by rewrite append_empty_r.
  - simpl in Hw. apply andb_true_iff in Hw as [Hc Hw].
    rewrite append_cons. cbn [Fields_go].
    rewrite (space_width_plain c (w +:+ rest) Hc).
    rewrite (IH _ Hw), append_assoc. done.
Qed.

Lemma Fields_go_space (cur rest : string) :
  Fields_go 0 cur (" " +:+ rest) = flush cur ++ Fields_go 0 EmptyString rest.
Proof. reflexivity. Qed.

Lemma flush_token (t : string) : token t = true -> flush t = [t].
Proof. by destruct t. Qed.

Lemma Fields_Join (toks : list string) :
  Forall (fun t => token t = true) toks ->
  Fields (Join toks " ") = toks.
Proof.
  unfold Fields. induction 1 as [|t toks Ht Hall IH]; [done|].
  pose proof Ht as Hplain. apply andb_true_iff in Hplain as [_ Hplain].
  destruct toks as [|t' toks].
  - cbn [Join]. rewrite <- (append_empty_r t) at 1.
    rewrite (Fields_go_plain t _ _ Hplain).
    change (EmptyString +:+ t) with t. cbn [Fields_go]. by apply flush_token.
  - change (Join (t :: t' :: toks) " ") with (t +:+ " " +:+ Join (t' :: toks) " ").
    rewrite (Fields_go_plain t _ _ Hplain).
    change (EmptyString +:+ t) with t.
    rewrite Fields_go_space, IH. by rewrite (flush_token t Ht).
Qed.

(** X17.  A [queue add] written with plain tokens (ASCII, no white space)
    separated by single spaces is read back token by token: the queue that
    is stored has the third token as title, the fourth as link and exactly
    the following ones as tags, in their order. *)
Theorem add_reads_tokens ev sh title link tags :
  Forall (fun t => token t = true) (title :: link :: tags) ->
  Text ev = Join ("queue" :: "add" :: title :: link :: tags) " " ->
  Queues (exec (handleQueueAdd ev) sh) !! NextID sh
  = Some {| ID := NextID sh; Title := title; MRLink := link; Tags := tags;
            Owner := User ev; InReviewState := false |}.
Proof.
  intros Htoks Htext.
  assert (Hfields : Fields (Text ev) = "queue" :: "add" :: title :: link :: tags).
  { rewrite Htext. apply Fields_Join.
    constructor; [reflexivity|]. constructor; [reflexivity|]. exact Htoks. }
  unfold exec. rewrite handleQueueAdd_run; rewrite Hfields.
  - simpl. apply lookup_insert_eq.
  - simpl. lia.
Qed.

Lemma add_reads_tokens_witness :
  Forall (fun t => token t = true) ["Fix"; "http://x"; "<@U1>"; "<@U2>"]
  /\ Queues (exec (handleQueueAdd
                     (Sample.msg "U9" "queue add Fix http://x <@U1> <@U2>"))
               Sample.sh) !! 5
     = Some {| ID := 5; Title := "Fix"; MRLink := "http://x";
               Tags := ["<@U1>"; "<@U2>"]; Owner := "U9";
               InReviewState := false |}.
Proof.
  split; [repeat constructor|].
  apply (add_reads_tokens (Sample.msg "U9" "queue add Fix http://x <@U1> <@U2>")
           Sample.sh "Fix" "http://x" ["<@U1>"; "<@U2>"]).
  - repeat constructor.
  - reflexivity.
Defined.

(** ** Ids as they are printed *)

Lemma pretty_N_char_cases (d : N) :
  (48 <=? byte_of (pretty_N_char d)) && (byte_of (pretty_N_char d) <=? 57) = true
  /\ plain_byte (pretty_N_char d) = true
  /\ ((d < 10)%N -> digit_val (pretty_N_char d) = Some (Z.of_N d)).
Proof.
  split; [|split].
  - unfold pretty_N_char. by repeat case_match.
  - unfold pretty_N_char. by repeat case_match.
  - intros Hd.
    assert (Hcases : (d = 0 \/ d = 1 \/ d = 2 \/ d = 3 \/ d = 4 \/ d = 5
                      \/ d = 6 \/ d = 7 \/ d = 8 \/ d = 9)%N) by lia.
    repeat (destruct Hcases as [->|Hcases]; [reflexivity|]).
    by subst.
Qed.

Lemma pretty_N_go_facts (x : N) :
  forall s : string,
    (plain s = true -> plain (pretty_N_go x s) = true)
    /\ (starts_digit s = true \/ (0 < x)%N ->
        starts_digit (pretty_N_go x s) = true)
    /\ (forall k v, reads s k v ->
          exists k', reads (pretty_N_go x s) k' (Z.of_N x * 10 ^ k + v)).
Proof.
  induction (N.lt_wf_0 x) as [x _ IH]. intros s.
  destruct (decide (x = 0)%N) as [->|Hx].
  { rewrite pretty_N_go_0. split; [done|].
    split; [intros [?|?]; [done|lia]|].
    intros k v Hs. exists k. by rewrite Z.mul_0_l, Z.add_0_l. }
  rewrite pretty_N_go_step by lia.
  assert (Hlt : (x `div` 10 < x)%N) by (apply N.div_lt; lia).
  destruct (pretty_N_char_cases (x `mod` 10)) as (Hdigit & Hplain & Hval).
  specialize (Hval ltac:(apply N.mod_lt; lia)).
  destruct (IH _ Hlt (String (pretty_N_char (x `mod` 10)) s))
    as (IHplain & IHstart & IHreads).
  split; [|split].
  - intros Hs. apply IHplain. simpl. by rewrite Hplain.
  - intros _. apply IHstart. left. exact Hdigit.
  - intros k v [Hk Hs].
    destruct (IHreads (k + 1) (Z.of_N (x `mod` 10) * 10 ^ k + v)) as [k' [Hk' Hr]].
    { split; [lia|]. intros acc. simpl. rewrite Hval, Hs.
      rewrite Z.pow_add_r by lia. f_equal. ring. }
    exists k'. split; [done|]. intros acc. rewrite Hr. f_equal.
    rewrite Z.pow_add_r by lia.
    rewrite N2Z.inj_div, N2Z.inj_mod.
    pose proof (Z.div_mod (Z.of_N x) 10 ltac:(lia)) as Hdm.
    change (Z.of_N 10) with 10.
    rewrite Hdm at 3. ring.
Qed.

Lemma pretty_positive_go (p : positive) :
  pretty (Zpos p) = pretty_N_go (Npos p) EmptyString.
Proof. reflexivity. Qed.

Lemma pretty_negative_go (p : positive) :
  pretty (Zneg p) = String "-" (pretty_N_go (Npos p) EmptyString).
Proof. reflexivity. Qed.

Lemma reads_empty : reads EmptyString 0 0.
Proof. split; [done|]. intros acc. simpl. f_equal. lia. Qed.

Lemma Atoi_digits (s : string) (k v : Z) :
  starts_digit s = true ->
  reads s k v ->
  Atoi s = (if GoInt.in_range v then Some v else None)
  /\ Atoi (String "-" s) = (if GoInt.in_range (- v) then Some (- v) else None).
Proof.
  intros Hstart [_ Hs]. destruct s as [|c r]; [done|].
  simpl in Hstart. apply andb_true_iff in Hstart as [Hlo Hhi].
  apply Z.leb_le in Hlo.
  unfold Atoi.
  replace (byte_of c =? 45) with false by (symmetry; apply Z.eqb_neq; lia).
  replace (byte_of c =? 43) with false by (symmetry; apply Z.eqb_neq; lia).
  cbn [orb]. rewrite (Hs 0). rewrite Z.mul_0_l, Z.add_0_l.
  split; [done|].
  change (byte_of "-" =? 45) with true. cbn [orb].
  by rewrite (Hs 0), Z.mul_0_l, Z.add_0_l.
Qed.

Lemma Atoi_pretty (z : Z) :
  GoInt.in_range z = true -> Atoi (pretty z) = Some z.
Proof.
  intros Hz. destruct z as [|p|p]; [done| |].
  - rewrite pretty_positive_go.
    destruct (pretty_N_go_facts (Npos p) EmptyString) as (_ & Hstart & Hreads).
    destruct (Hreads 0 0 reads_empty) as [k' Hr].
    destruct (Atoi_digits _ _ _ (Hstart ltac:(right; lia)) Hr) as [-> _].
    replace (Z.of_N (N.pos p) * 10 ^ 0 + 0) with (Z.pos p) by lia.
    by rewrite Hz.
  - rewrite pretty_negative_go.
    destruct (pretty_N_go_facts (Npos p) EmptyString) as (_ & Hstart & Hreads).
    destruct (Hreads 0 0 reads_empty) as [k' Hr].
    destruct (Atoi_digits _ _ _ (Hstart ltac:(right; lia)) Hr) as [_ ->].
    replace (- (Z.of_N (N.pos p) * 10 ^ 0 + 0)) with (Z.neg p) by lia.
    by rewrite Hz.
Qed.

Lemma token_pretty (z : Z) : token (pretty z) = true.
Proof.
  assert (Htok : forall s, starts_digit s = true -> plain s = true ->
                           token s = true /\ token (String "-" s) = true).
  { intros s Hstart Hplain. unfold token. simpl. rewrite Hplain.
    by destruct s. }
  destruct z as [|p|p]; [done| |].
  - rewrite pretty_positive_go.
    destruct (pretty_N_go_facts (Npos p) EmptyString) as (Hplain & Hstart & _).
    apply Htok; [apply Hstart; right; lia|by apply Hplain].
  - rewrite pretty_negative_go.
    destruct (pretty_N_go_facts (Npos p) EmptyString) as (Hplain & Hstart & _).
    apply Htok; [apply Hstart; right; lia|by apply Hplain].
Qed.

(** X18.  An id is read back as it is printed: a command made of the two
    command words and the decimal form of an [int], as the listing shows
    it, names that id. *)
Theorem printed_id_is_read_back (verb : string) (id : Z) :
  token verb = true ->
  GoInt.in_range id = true ->
  parseQueueID ("queue" +:+ " " +:+ verb +:+ " " +:+ pretty id) = inr id.
Proof.
  intros Hverb Hid. unfold parseQueueID.
  change ("queue" +:+ " " +:+ verb +:+ " " +:+ pretty id)
    with (Join ["queue"; verb; pretty id] " ").
  rewrite Fields_Join.
  - simpl. by rewrite Atoi_pretty.
  - constructor; [reflexivity|]. constructor; [done|].
    constructor; [apply token_pretty|constructor].
Qed.

Lemma printed_id_is_read_back_witness :
  token "approve" = true
  /\ GoInt.in_range (-42) = true
  /\ parseQueueID ("queue" +:+ " " +:+ "approve" +:+ " " +:+ pretty (-42))
     = inr (-42).
Proof.
  split; [reflexivity|]. split; [reflexivity|].
  apply (printed_id_is_read_back "approve" (-42)); reflexivity.
Defined.

(** ** Routing *)

Lemma prefix_both (a b s : string) :
  String.prefix a s = true -> String.prefix b s = true ->
  String.prefix a b = true \/ String.prefix b a = true.
Proof.
  revert a b. induction s as [|x s IH]; intros a b Ha Hb.
  - destruct a; [|done]. left. by destruct b.
  - destruct a as [|y a]; [left; by destruct b|].
    destruct b as [|z b]; [by right|].
    simpl in *. destruct (ascii_dec y x) as [->|]; [|done].
    destruct (ascii_dec z x) as [->|]; [|done].
    destruct (ascii_dec x x); [|done]. by apply IH.
Qed.

Lemma HasPrefix_other (s verb other : string) :
  HasPrefix s verb = true ->
  String.prefix other verb = false ->
  String.prefix verb other = false ->
  HasPrefix s other = false.
Proof.
  unfold HasPrefix. intros Hverb H1 H2.
  destruct (String.prefix other s) eqn:Hother; [|done].
  destruct (prefix_both _ _ _ Hother Hverb); congruence.
Qed.

(** X19.  A message from a user other than the bot, without subtype, is
    routed by the command words its trimmed text starts with, each verb to
    its own handler; what follows the verb plays no part in the routing. *)
Theorem routed_by_verb range ev sh :
  User ev <> BotUserID sh ->
  SubType ev = EmptyString ->
  (HasPrefix (TrimSpace (Text ev)) "queue add" = true ->
   handleCallbackEvent range ev sh = handleQueueAdd ev sh)
  /\ (HasPrefix (TrimSpace (Text ev)) "queue list" = true ->
      handleCallbackEvent range ev sh = handleQueueList range ev sh)
  /\ (HasPrefix (TrimSpace (Text ev)) "queue remove" = true ->
      handleCallbackEvent range ev sh = handleQueueRemove ev sh)
  /\ (HasPrefix (TrimSpace (Text ev)) "queue approve" = true ->
      handleCallbackEvent range ev sh = handleQueueApprove range ev sh)
  /\ (HasPrefix (TrimSpace (Text ev)) "queue review" = true ->
      handleCallbackEvent range ev sh = handleQueueReview range ev sh)
  /\ (HasPrefix (TrimSpace (Text ev)) "queue update" = true ->
      handleCallbackEvent range ev sh = handleQueueUpdate range ev sh)
  /\ (HasPrefix (TrimSpace (Text ev)) "queue help" = true ->
      handleCallbackEvent range ev sh = handleQueueHelp ev sh).
Proof.
  intros Huser Hsub.
  assert (Hrun : forall h : Handler unit,
             (let '(b, sh2, t2) := h sh in (b, sh2, [] ++ t2)) = h sh).
  { intros h. by destruct (h sh) as [[[] ?] ?]. }
  unfold handleCallbackEvent, bind, get.
  apply String.eqb_neq in Huser. rewrite Huser, Hsub. cbn [orb negb String.eqb].
  repeat split; intros Hverb;
    rewrite ?(HasPrefix_other _ _ "queue add" Hverb eq_refl eq_refl),
      ?(HasPrefix_other _ _ "queue list" Hverb eq_refl eq_refl),
      ?(HasPrefix_other _ _ "queue remove" Hverb eq_refl eq_refl),
      ?(HasPrefix_other _ _ "queue approve" Hverb eq_refl eq_refl),
      ?(HasPrefix_other _ _ "queue review" Hverb eq_refl eq_refl),
      ?(HasPrefix_other _ _ "queue update" Hverb eq_refl eq_refl);
    rewrite Hverb; apply Hrun.
Qed.

Lemma routed_by_verb_witness :
  User (Sample.msg "U1" "  queue listing, please ") <> BotUserID Sample.sh
  /\ HasPrefix (TrimSpace (Text (Sample.msg "U1" "  queue listing, please ")))
       "queue list" = true
  /\ handleCallbackEvent range_listed
       (Sample.msg "U1" "  queue listing, please ") Sample.sh
     = handleQueueList range_listed
         (Sample.msg "U1" "  queue listing, please ") Sample.sh.
Proof.
  split; [discriminate|]. split; [reflexivity|].
  apply (routed_by_verb range_listed
           (Sample.msg "U1" "  queue listing, please ") Sample.sh);
    [discriminate|reflexivity|reflexivity].
Defined.

(** ** Who may do what *)

(** X20.  Remove, review and update do not look at who sends the message:
    two messages with the same text leave the same registry, whoever their
    senders are.  Among the commands only approve checks the sender. *)
Theorem sender_not_checked range ev ev' sh :
  Text ev = Text ev' ->
  exec (handleQueueRemove ev) sh = exec (handleQueueRemove ev') sh
  /\ exec (handleQueueReview range ev) sh = exec (handleQueueReview range ev') sh
  /\ exec (handleQueueUpdate range ev) sh = exec (handleQueueUpdate range ev') sh.
Proof.
  intros Htext. unfold exec.
  unfold handleQueueRemove, handleQueueReview, handleQueueUpdate.
  rewrite Htext. destruct (parseQueueID (Text ev')) as [err|id]; [done|].
  unfold_handler. simpl.
  destruct (Queues sh !! id) as [queue|]; simpl; [|done].
  by rewrite !handleQueueList_run.
Qed.

Lemma sender_not_checked_witness :
  Text (Sample.msg "U9" "queue remove 1") = Text (Sample.msg "nobody" "queue remove 1")
  /\ exec (handleQueueRemove (Sample.msg "U9" "queue remove 1")) Sample.sh
     = exec (handleQueueRemove (Sample.msg "nobody" "queue remove 1")) Sample.sh.
Proof.
  split; [reflexivity|].
  apply (sender_not_checked range_listed (Sample.msg "U9" "queue remove 1")
           (Sample.msg "nobody" "queue remove 1") Sample.sh).
  reflexivity.
Defined.

(** ** The mutex and the replies *)

Lemma handleQueueApprove_traces range ev sh :
  exists notice,
    trace (handleQueueApprove range ev) sh = [PostMessage (Channel ev) notice]
    \/ trace (handleQueueApprove range ev) sh
       = [MuLock; MuUnlock; PostMessage (Channel ev) notice]
    \/ trace (handleQueueApprove range ev) sh
       = [MuLock; MuUnlock; PostMessage (Channel ev) notice;
          MuLock;
          PostMessage (Channel ev)
            (list_msg range (exec (handleQueueApprove range ev) sh));
          MuUnlock].
Proof.
  unfold handleQueueApprove. run_handler;
    first [ by eexists; left
          | by eexists; right; left
          | by eexists; right; right ].
Qed.

(** C9, as the code has it.  Every command ends with the mutex released,
    never locks it twice and never unlocks it free.  What is posted before
    the mutex is taken (the help text, the usage lines and the parse
    errors) and the notices of [handleQueueApprove] itself are posted with
    the mutex free.  [handleQueueList] posts its message, the listing or
    the no-queues message, between [Lock] and its deferred [Unlock]: so
    whenever [handleQueueApprove] goes on to the listing, after an approval
    or after the completion notice, that listing is posted with the mutex
    held, and it is the only message of an approval that is.
    [handleQueueAdd] posts its confirmation with the mutex held as well. *)
Theorem lock_released_after_posting range ev sh :
  well_locked false (trace (handleCallbackEvent range ev) sh) = true
  /\ trace (handleQueueList range ev) sh
     = [MuLock; PostMessage (Channel ev) (list_msg range sh); MuUnlock]
  /\ posts_under_lock false (trace (handleQueueList range ev) sh)
     = [list_msg range sh]
  /\ (posts_under_lock false (trace (handleQueueApprove range ev) sh) = []
      \/ posts_under_lock false (trace (handleQueueApprove range ev) sh)
         = [list_msg range (exec (handleQueueApprove range ev) sh)])
  /\ (exists notice,
         trace (handleQueueApprove range ev) sh
         = [PostMessage (Channel ev) notice]
         \/ trace (handleQueueApprove range ev) sh
            = [MuLock; MuUnlock; PostMessage (Channel ev) notice]
         \/ trace (handleQueueApprove range ev) sh
            = [MuLock; MuUnlock; PostMessage (Channel ev) notice;
               MuLock;
               PostMessage (Channel ev)
                 (list_msg range (exec (handleQueueApprove range ev) sh));
               MuUnlock])
  /\ (forall id queue,
         parseQueueID (Text ev) = inr id ->
         Queues sh !! id = Some queue ->
         Tags queue = [] \/ ("<@" +:+ User ev +:+ ">") ∈ Tags queue ->
         trace (handleQueueApprove range ev) sh
         = [MuLock; MuUnlock;
            PostMessage (Channel ev)
              (if (0 <? List.length (Tags queue))%nat
               then "Queue approved and tag removed."
               else "Queue completed; no tags left.");
            MuLock;
            PostMessage (Channel ev)
              (list_msg range (exec (handleQueueApprove range ev) sh));
            MuUnlock]
         /\ posts_under_lock false (trace (handleQueueApprove range ev) sh)
            = [list_msg range (exec (handleQueueApprove range ev) sh)])
  /\ trace (handleQueueHelp ev) sh = [PostMessage (Channel ev) helpMessage]
  /\ (forall err,
         parseQueueID (Text ev) = inl err ->
         trace (handleQueueRemove ev) sh = [PostMessage (Channel ev) err]
         /\ trace (handleQueueReview range ev) sh = [PostMessage (Channel ev) err]
         /\ trace (handleQueueUpdate range ev) sh = [PostMessage (Channel ev) err]
         /\ trace (handleQueueApprove range ev) sh
            = [PostMessage (Channel ev)
                 (if (List.length (Fields (Text ev)) <? 3)%nat
                  then "Usage: queue approve <id>" else "Invalid queue ID.")])
  /\ ((List.length (Fields (Text ev)) < 4)%nat ->
      trace (handleQueueAdd ev) sh
      = [PostMessage (Channel ev) "Usage: queue add <title> <MR link> @tag @tag"])
  /\ ((4 <= List.length (Fields (Text ev)))%nat ->
      exists msg,
        trace (handleQueueAdd ev) sh
        = [MuLock; PostMessage (Channel ev) msg; MuUnlock]
        /\ posts_under_lock false (trace (handleQueueAdd ev) sh) = [msg]).
Proof.
  split; [apply well_locked_handlers|].
  split; [unfold trace; by rewrite handleQueueList_run|].
  split; [unfold trace; by rewrite handleQueueList_run|].
  split.
  { unfold trace, exec, handleQueueApprove. run_handler; auto. }
  split; [apply handleQueueApprove_traces|].
  split.
  { intros id queue Hid Hq Htags. unfold trace, exec.
    destruct Htags as [Htags|Hin].
    - rewrite (handleQueueApprove_empty range ev sh id queue Hid Hq Htags).
      by rewrite Htags.
    - destruct (first_occurrence _ _ Hin) as (pre & post & Htags & Hpre).
      rewrite (handleQueueApprove_found range ev sh id queue Hid Hq pre post
                 Htags Hpre).
      rewrite Htags, length_app. cbn [List.length].
      replace (0 <? List.length pre + S (List.length post))%nat with true
        by (symmetry; apply Nat.ltb_lt; lia).
      done. }
  split; [done|].
  split.
  { intros err Herr. unfold trace.
    unfold handleQueueRemove, handleQueueReview, handleQueueUpdate.
    rewrite Herr. do 3 (split; [done|]).
    unfold handleQueueApprove.
    destruct (parseQueueID_inl _ _ Herr) as [[Hlen _]|(Hlen & Hatoi & _)].
    - apply Nat.ltb_lt in Hlen. by rewrite Hlen.
    - apply Nat.ltb_ge in Hlen. by rewrite Hlen, Hatoi. }
  split.
  { intros Hlen. unfold trace. by rewrite (handleQueueAdd_usage ev sh Hlen). }
  intros Hlen. unfold trace. rewrite (handleQueueAdd_run ev sh Hlen).
  eexists. split; reflexivity.
Qed.

Lemma lock_released_after_posting_witness :
  parseQueueID (Text (Sample.msg "U1" "queue approve 1")) = inr 1
  /\ Queues Sample.sh !! 1 = Some Sample.fix_bug
  /\ ("<@U1>" ∈ Tags Sample.fix_bug)
  /\ trace (handleQueueApprove range_listed (Sample.msg "U1" "queue approve 1"))
       Sample.sh
     = [MuLock; MuUnlock;
        PostMessage "C1" "Queue approved and tag removed.";
        MuLock;
        PostMessage "C1"
          (list_msg range_listed
             (exec (handleQueueApprove range_listed
                      (Sample.msg "U1" "queue approve 1")) Sample.sh));
        MuUnlock]
  /\ posts_under_lock false
       (trace (handleQueueApprove range_listed
                 (Sample.msg "U1" "queue approve 1")) Sample.sh)
     = [list_msg range_listed
          (exec (handleQueueApprove range_listed
                   (Sample.msg "U1" "queue approve 1")) Sample.sh)].
Proof.
  split; [reflexivity|]. split; [reflexivity|]. split; [compute_done|].
  destruct (lock_released_after_posting range_listed
              (Sample.msg "U1" "queue approve 1") Sample.sh)
    as (_ & _ & _ & _ & _ & Happrove & _).
  apply (Happrove 1 Sample.fix_bug).
  - reflexivity.
  - reflexivity.
  - right. compute_done.
Defined.
